(** * libdns-cloudns: the record provider of [provider.go]

    A shallow embedding of [Provider.GetRecords], [Provider.AppendRecords],
    [Provider.SetRecords] and [Provider.DeleteRecords], and the properties
    of the reconciliation policy they implement.

    The HTTP client ([UseClient] and its four methods) is an external
    collaborator: it is a parameter of the development.  Every remote
    call is run against an abstract remote [World] and recorded, with
    its reply, in the list of events of the run. *)

From Stdlib Require Import String Ascii List ZArith Bool Arith Lia DecimalString.
Import ListNotations.
Local Open Scope string_scope.
Local Open Scope list_scope.

(** ** Go's [strings] functions used by the provider *)

Module strings.

(** [len(s) >= len(prefix) && s[:len(prefix)] == prefix] *)
Definition HasPrefix (s prefix : string) : bool :=
  (String.length prefix <=? String.length s)%nat
  && (substring 0 (String.length prefix) s =? prefix).

(** [len(s) >= len(suffix) && s[len(s)-len(suffix):] == suffix] *)
Definition HasSuffix (s suffix : string) : bool :=
  (String.length suffix <=? String.length s)%nat
  && (substring (String.length s - String.length suffix)
                (String.length suffix) s =? suffix).

(** [if HasSuffix(s, suffix) { return s[:len(s)-len(suffix)] }; return s] *)
Definition TrimSuffix (s suffix : string) : string :=
  if HasSuffix s suffix
  then substring 0 (String.length s - String.length suffix) s else s.

End strings.

(** ** Data model *)

(** Go's [error] values are only built by [errors.New] and only observed
    through [Error()]: an error is its message.  A nil error is [None]. *)
Definition error := string.

Module errors.
Definition New (text : string) : error := text.
End errors.

Definition Error (err : error) : string := err.

Module libdns.

(** The fields of [libdns.Record] the provider reads.  [TTL] is a
    [time.Duration], a 64-bit integer that is only passed along. *)
Record Record := mkRecord {
  ID : string;
  Type_ : string;
  Name : string;
  Value : string;
  TTL : Z
}.

End libdns.
Import libdns.

Record Provider := mkProvider {
  AuthId : string;
  SubAuthId : string;
  AuthPassword : string
}.

(** ** Remote calls and their replies *)

Inductive Call :=
| CallGetRecords (zone : string)
| CallAddRecord (zone recordType recordHost recordValue : string) (ttl : Z)
| CallUpdateRecord (zone recordID recordHost recordValue : string) (ttl : Z)
| CallDeleteRecord (zone recordID : string).

Inductive Reply :=
| Listed (records : list Record)
| Returned (r : Record)
| Failed (err : error).

Record Event := mkEvent { call : Call; reply : Reply }.

Definition isGet (c : Call) : bool :=
  match c with CallGetRecords _ => true | _ => false end.
Definition isAdd (c : Call) : bool :=
  match c with CallAddRecord _ _ _ _ _ => true | _ => false end.
Definition isUpdate (c : Call) : bool :=
  match c with CallUpdateRecord _ _ _ _ _ => true | _ => false end.
Definition isDelete (c : Call) : bool :=
  match c with CallDeleteRecord _ _ => true | _ => false end.

Definition failure (e : Event) : option error :=
  match reply e with Failed err => Some err | _ => None end.

Definition replyOf {A} (wrap : A -> Reply) (r : A + error) : Reply :=
  match r with inl a => wrap a | inr err => Failed err end.

Section Remote.

(** [context.Context]: opaque, handed to every remote call. *)
Variable Context : Type.
(** Everything a remote call can read or change. *)
Variable World : Type.

(** The methods of the client returned by [UseClient].  A method either
    fails with an error or yields its value. *)
Record Client := mkClient {
  client_GetRecords :
    Context -> string -> World -> (list Record + error) * World;
  client_AddRecord :
    Context -> string -> string -> string -> string -> Z ->
    World -> (Record + error) * World;
  client_UpdateRecord :
    Context -> string -> string -> string -> string -> Z ->
    World -> (Record + error) * World;
  client_DeleteRecord :
    Context -> string -> string -> World -> (Record + error) * World
}.

Variable UseClient : string -> string -> string -> Client.

(** *** Runs: a value, the remote world afterwards, the calls made *)

Record Run (A : Type) := mkRun {
  value : A;
  world : World;
  events : list Event
}.
Arguments mkRun {A}.
Arguments value {A}.
Arguments world {A}.
Arguments events {A}.

Definition M (A : Type) := World -> Run A.

Definition ret {A} (a : A) : M A := fun w => mkRun a w [].

Definition bind {A B} (m : M A) (k : A -> M B) : M B := fun w =>
  let r := m w in
  let r' := k (value r) (world r) in
  mkRun (value r') (world r') (events r ++ events r').

(** [after evs r]: the run [r], preceded by the events [evs]. *)
Definition after {A} (evs : list Event) (r : Run A) : Run A :=
  mkRun (value r) (world r) (evs ++ events r).

Notation "x <- m ;; k" := (bind m (fun x => k))
  (at level 61, m at next level, right associativity).

Definition remote {A} (c : Call) (wrap : A -> Reply)
           (f : World -> (A + error) * World) : M (A + error) := fun w =>
  mkRun (fst (f w)) (snd (f w)) [mkEvent c (replyOf wrap (fst (f w)))].

Definition Client_GetRecords (c : Client) ctx zone :=
  remote (CallGetRecords zone) Listed (client_GetRecords c ctx zone).
Definition Client_AddRecord (c : Client) ctx zone ty host val ttl :=
  remote (CallAddRecord zone ty host val ttl) Returned
         (client_AddRecord c ctx zone ty host val ttl).
Definition Client_UpdateRecord (c : Client) ctx zone id host val ttl :=
  remote (CallUpdateRecord zone id host val ttl) Returned
         (client_UpdateRecord c ctx zone id host val ttl).
Definition Client_DeleteRecord (c : Client) ctx zone id :=
  remote (CallDeleteRecord zone id) Returned
         (client_DeleteRecord c ctx zone id).

(** *** The provider *)

(** What a Go method of type [([]libdns.Record, error)] returns. *)
Definition Records := (list Record * option error)%type.

Definition client (p : Provider) : Client :=
  UseClient (AuthId p) (SubAuthId p) (AuthPassword p).

(** [GetRecords], lines 22-31. *)
Definition GetRecords (p : Provider) (ctx : Context) (zone : string)
  : M Records :=
  let zone :=
    if strings.HasSuffix zone "." then strings.TrimSuffix zone "." else zone in
  r <- Client_GetRecords (client p) ctx zone ;;
  match r with
  | inr err => ret ([], Some err)
  | inl records => ret (records, None)
  end.

(** The zone after [if strings.HasSuffix(zone, ".") { zone =
    strings.TrimSuffix(zone, ".") }], the first statement of each of
    the four methods. *)
Definition trimmed (zone : string) : string :=
  if strings.HasSuffix zone "." then strings.TrimSuffix zone "." else zone.

(** [for _, record := range records { ... }] as the three batch methods
    write it: an iteration either appends one record to the slice
    built so far, or makes the method return [nil] and an error. *)
Fixpoint rangeRecords (body : Record -> M (Record + error))
         (records acc : list Record) : M Records :=
  match records with
  | [] => ret (acc, None)
  | record :: records =>
      r <- body record ;;
      match r with
      | inr err => ret ([], Some err)
      | inl r => rangeRecords body records (acc ++ [r])
      end
  end.

(** One iteration of the loop of [DeleteRecords], lines 128-132. *)
Definition DeleteRecords_body (p : Provider) (ctx : Context) (zone : string)
           (record : Record) : M (Record + error) :=
  r <- Client_DeleteRecord (client p) ctx zone (ID record) ;;
  match r with
  | inr err => ret (inr (errors.New ("failed to delete record: " ++ Error err)))
  | inl r => ret (inl r)
  end.

(** [DeleteRecords], lines 122-135. *)
Definition DeleteRecords (p : Provider) (ctx : Context) (zone : string)
           (records : list Record) : M Records :=
  let zone :=
    if strings.HasSuffix zone "." then strings.TrimSuffix zone "." else zone in
  rangeRecords (DeleteRecords_body p ctx zone) records [].

(** One iteration of the loop of [SetRecords], lines 102-116. *)
Definition SetRecords_body (p : Provider) (ctx : Context) (zone : string)
           (record : Record) : M (Record + error) :=
  if (String.length (ID record) =? 0)%nat then
    r <- Client_AddRecord (client p) ctx zone (Type_ record)
           (Name record) (Value record) (TTL record) ;;
    match r with
    | inr err => ret (inr (errors.New ("failed to add record: " ++ Error err)))
    | inl r => ret (inl r)
    end
  else
    r <- Client_UpdateRecord (client p) ctx zone (ID record)
           (Name record) (Value record) (TTL record) ;;
    match r with
    | inr err => ret (inr (errors.New ("failed to update record: " ++ Error err)))
    | inl r => ret (inl r)
    end.

(** [SetRecords], lines 96-119. *)
Definition SetRecords (p : Provider) (ctx : Context) (zone : string)
           (records : list Record) : M Records :=
  let zone :=
    if strings.HasSuffix zone "." then strings.TrimSuffix zone "." else zone in
  rangeRecords (SetRecords_body p ctx zone) records [].

(** The scan of the existing records, lines 50-63: the first record of
    the candidate's type and name becomes [currentRecord], the later
    ones are collected in [recordsToDelete]. *)
Fixpoint scanExisting (record : Record) (existingRecords : list Record)
         (recordsToDelete : list Record) (currentRecord : option Record)
  : list Record * option Record :=
  match existingRecords with
  | [] => (recordsToDelete, currentRecord)
  | existing :: existingRecords =>
      if (Type_ existing =? Type_ record) && (Name existing =? Name record)
      then
        match currentRecord with
        | None =>
            scanExisting record existingRecords recordsToDelete (Some existing)
        | Some _ =>
            scanExisting record existingRecords
                         (recordsToDelete ++ [existing]) currentRecord
        end
      else scanExisting record existingRecords recordsToDelete currentRecord
  end.

(** One iteration of the loop of [AppendRecords], lines 41-89. *)
Definition AppendRecords_body (p : Provider) (ctx : Context) (zone : string)
           (record : Record) : M (Record + error) :=
  (* lines 84-89 *)
  let addRecord :=
    r <- Client_AddRecord (client p) ctx zone (Type_ record)
           (Name record) (Value record) (TTL record) ;;
    match r with
    | inr err => ret (inr (errors.New ("failed to add record: " ++ Error err)))
    | inl r => ret (inl r)
    end in
  if strings.HasPrefix (Name record) "_acme-challenge." then
    got <- GetRecords p ctx zone ;;
    match snd got with
    | Some err =>
        ret (inr (errors.New ("failed to get existing records: " ++ Error err)))
    | None =>
        let scanned := scanExisting record (fst got) [] None in
        let recordsToDelete := fst scanned in
        let currentRecord := snd scanned in
        deleted <- (if (0 <? List.length recordsToDelete)%nat
                    then DeleteRecords p ctx zone recordsToDelete
                    else ret ([], None)) ;;
        match snd deleted with
        | Some err =>
            ret (inr (errors.New
                        ("failed to delete stale ACME challenge records: "
                           ++ Error err)))
        | None =>
            match currentRecord with
            | Some currentRecord =>
                r <- Client_UpdateRecord (client p) ctx zone
                       (ID currentRecord) (Name record) (Value record)
                       (TTL record) ;;
                match r with
                | inr err =>
                    ret (inr (errors.New
                                ("failed to update ACME challenge record: "
                                   ++ Error err)))
                | inl r => ret (inl r)
                end
            | None => addRecord
            end
        end
    end
  else addRecord.

(** [AppendRecords], lines 34-92. *)
Definition AppendRecords (p : Provider) (ctx : Context) (zone : string)
           (records : list Record) : M Records :=
  let zone :=
    if strings.HasSuffix zone "." then strings.TrimSuffix zone "." else zone in
  rangeRecords (AppendRecords_body p ctx zone) records [].

End Remote.

Arguments mkRun {World A}.
Arguments value {World A}.
Arguments world {World A}.
Arguments events {World A}.
Arguments after {World A}.
Arguments rangeRecords {World}.
Arguments client {Context World}.
Arguments GetRecords {Context World}.
Arguments DeleteRecords_body {Context World}.
Arguments DeleteRecords {Context World}.
Arguments SetRecords_body {Context World}.
Arguments SetRecords {Context World}.
Arguments AppendRecords_body {Context World}.
Arguments AppendRecords {Context World}.

(** ** An in-memory remote *)

Module Memory.

(** Modelled from the spec: the Remote Record Client of section 6
    ([GetRecords], [AddRecord], [UpdateRecord], [DeleteRecord]), whose
    source is not among the files of the provider.  It keeps the
    records of one zone; a created record gets the next free
    identifier; an update returns the record as it stands after the
    update, under the same identifier; a delete returns the record it
    removed; a method listed in [faults] fails with the error given
    there, and a call for another zone fails. *)
Record Zone := mkZone {
  zoneName : string;
  stored : list Record;
  nextID : nat;
  faults : list (string * error)
}.

Fixpoint fault (method : string) (fs : list (string * error)) : option error :=
  match fs with
  | [] => None
  | (m, err) :: fs => if m =? method then Some err else fault method fs
  end.

Fixpoint lookup (id : string) (rs : list Record) : option Record :=
  match rs with
  | [] => None
  | r :: rs => if ID r =? id then Some r else lookup id rs
  end.

Fixpoint remove (id : string) (rs : list Record) : list Record :=
  match rs with
  | [] => []
  | r :: rs => if ID r =? id then rs else r :: remove id rs
  end.

Fixpoint replace (r' : Record) (rs : list Record) : list Record :=
  match rs with
  | [] => []
  | r :: rs => if ID r =? ID r' then r' :: rs else r :: replace r' rs
  end.

Definition guarded {A} (method zone : string) (w : Zone)
           (f : (A + error) * Zone) : (A + error) * Zone :=
  match fault method (faults w) with
  | Some err => (inr err, w)
  | None =>
      if zone =? zoneName w then f else (inr "zone not found", w)
  end.

Definition idOf (n : nat) : string :=
  DecimalString.NilEmpty.string_of_uint (Nat.to_uint n).

Definition getRecords (_ : unit) (zone : string) (w : Zone) :=
  guarded "GetRecords" zone w (inl (stored w), w).

Definition addRecord (_ : unit) (zone ty host val : string) (ttl : Z)
           (w : Zone) :=
  let r := mkRecord (idOf (nextID w)) ty host val ttl in
  guarded "AddRecord" zone w
          (inl r, mkZone (zoneName w) (stored w ++ [r]) (S (nextID w)) (faults w)).

Definition updateRecord (_ : unit) (zone id host val : string) (ttl : Z)
           (w : Zone) :=
  guarded "UpdateRecord" zone w
          match lookup id (stored w) with
          | None => (inr "record not found", w)
          | Some old =>
              let r := mkRecord id (Type_ old) host val ttl in
              (inl r, mkZone (zoneName w) (replace r (stored w)) (nextID w)
                             (faults w))
          end.

Definition deleteRecord (_ : unit) (zone id : string) (w : Zone) :=
  guarded "DeleteRecord" zone w
          match lookup id (stored w) with
          | None => (inr "record not found", w)
          | Some old =>
              (inl old, mkZone (zoneName w) (remove id (stored w)) (nextID w)
                               (faults w))
          end.

(** Modelled from the spec: [UseClient], the constructor of the Remote
    Record Client; the credentials are passed through and play no part
    in what the methods do. *)
Definition UseClient (authId subAuthId authPassword : string)
  : Client unit Zone :=
  mkClient unit Zone getRecords addRecord updateRecord deleteRecord.

Definition provider : Provider := mkProvider "id" "" "secret".

Definition acme (id value : string) : Record :=
  mkRecord id "TXT" "_acme-challenge.example.com" value 300.

(** The zone of the end-to-end scenario: two challenge records. *)
Definition twoChallenges : Zone :=
  mkZone "example.com" [acme "1" "old"; acme "2" "old2"] 3 [].

Definition failing (method : string) (w : Zone) : Zone :=
  mkZone (zoneName w) (stored w) (nextID w) ((method, "boom") :: faults w).

(** A zone with one challenge record. *)
Definition oneChallenge : Zone :=
  mkZone "example.com" [acme "1" "old"] 2 [].

Definition challengeA (id value : string) : Record :=
  mkRecord id "A" "_acme-challenge.example.com" value 60.

(** A zone with three records of one challenge name: two of type A
    around one of type TXT. *)
Definition mixed : Zone :=
  mkZone "example.com"
         [challengeA "1" "192.0.2.1"; acme "2" "old"; challengeA "3" "192.0.2.2"]
         4 [].

(** Candidates: an address record, a TXT record of an ordinary name. *)
Definition www (id : string) : Record :=
  mkRecord id "A" "www.example.com" "192.0.2.1" 60.

Definition note (id : string) : Record :=
  mkRecord id "TXT" "www.example.com" "hello" 300.

Definition returned (c : Call) (r : Record) : Event := mkEvent c (Returned r).

Definition update (id value : string) : Call :=
  CallUpdateRecord "example.com" id "_acme-challenge.example.com" value 300.

Definition delete (id : string) : Call := CallDeleteRecord "example.com" id.

Definition listing (rs : list Record) : Event :=
  mkEvent (CallGetRecords "example.com") (Listed rs).

Definition append := AppendRecords UseClient provider tt.

(** The zone with two challenge records, with a failing method. *)
Definition noListing : Zone := failing "GetRecords" twoChallenges.
Definition noDeleting : Zone := failing "DeleteRecord" twoChallenges.

Definition failedDelete : Event :=
  mkEvent (delete "2") (Failed "boom").

End Memory.

(** ** Vocabulary of the statements *)

(** [sameTypeName record existing]: the test of line 53. *)
Definition sameTypeName (record existing : Record) : bool :=
  (Type_ existing =? Type_ record) && (Name existing =? Name record).

(** The existing records of the candidate's type and name, in listing
    order. *)
Definition matching (record : Record) (existingRecords : list Record)
  : list Record :=
  filter (sameTypeName record) existingRecords.

Definition succeeded (e : Event) : Prop := failure e = None.




(** [wraps cause msg]: [msg] is [cause] behind a description. *)
Definition wraps (cause : error) (msg : string) : Prop :=
  exists description : string, description <> "" /\ msg = (description ++ cause)%string.

(** What a batch method does once the remote call that ends an iteration
    has replied: with a record, it appends it and goes on with the rest
    of the batch; with an error, it returns [nil] and the error behind
    [label]. *)
Definition resume {World} (body : Record -> World -> Run World (Record + error))
           (rest acc : list Record) (label : string)
           (answer : (Record + error) * World) : Run World Records :=
  match fst answer with
  | inl r => rangeRecords body rest (acc ++ [r]) (snd answer)
  | inr err => mkRun ([], Some (errors.New (label ++ Error err))) (snd answer) []
  end.

(** The event of a remote call that answered [answer]. *)
Definition answered {World} (c : Call) (answer : (Record + error) * World)
  : Event :=
  mkEvent c (replyOf Returned (fst answer)).

(** The run of a remote call that ends an iteration: the record it
    answered, or its error behind [label]. *)
Definition replied {World} (c : Call) (label : string)
           (answer : (Record + error) * World) : Run World (Record + error) :=
  mkRun match fst answer with
        | inl r => inl r
        | inr err => inr (errors.New (label ++ Error err))
        end (snd answer) [answered c answer].





(** The zone a remote call names. *)
Definition zoneOf (c : Call) : string :=
  match c with
  | CallGetRecords zone => zone
  | CallAddRecord zone _ _ _ _ => zone
  | CallUpdateRecord zone _ _ _ _ => zone
  | CallDeleteRecord zone _ => zone
  end.

(** The identifier of the record a remote call changes or removes. *)
Definition target (c : Call) : option string :=
  match c with
  | CallUpdateRecord _ id _ _ _ => Some id
  | CallDeleteRecord _ id => Some id
  | _ => None
  end.

(** The test of line 42. *)
Definition challenge (record : Record) : bool :=
  strings.HasPrefix (Name record) "_acme-challenge.".

(** A record without its identifier, and the identifier alone. *)
Definition withoutID (record : Record) : Record :=
  mkRecord "" (Type_ record) (Name record) (Value record) (TTL record).

Definition onlyID (record : Record) : Record :=
  mkRecord (ID record) "" "" "" 0.

(** The remote call of [SetRecords] for a record, lines 102-111. *)
Definition setCall (zone : string) (record : Record) : Call :=
  if (String.length (ID record) =? 0)%nat
  then CallAddRecord zone (Type_ record) (Name record) (Value record)
                     (TTL record)
  else CallUpdateRecord zone (ID record) (Name record) (Value record)
                        (TTL record).

(** [andThen first second]: what a batch method that runs [first] and,
    when it returns no error, goes on with [second], returns: the error
    of the run that failed and no record, or the records of both. *)
Definition andThen {World} (first second : Run World Records)
  : Run World Records :=
  match snd (value first) with
  | Some _ => first
  | None =>
      mkRun match snd (value second) with
            | None => (fst (value first) ++ fst (value second), None)
            | Some _ => value second
            end (world second) (events first ++ events second)
  end.

(** The listing calls among the calls of a run. *)
Definition listings (evs : list Event) : list Event :=
  filter (fun e => isGet (call e)) evs.

(** ** Facts on strings *)

Lemma length_zero_empty (s : string) :
  (String.length s =? 0)%nat = true <-> s = "".
Proof.
  destruct s; simpl; split; intro H; try reflexivity; discriminate.
Qed.

Lemma substring_all (s t : string) :
  substring 0 (String.length s) (s ++ t)%string = s.
Proof.
  induction s as [|a s IH]; simpl.
  - destruct t; reflexivity.
  - now rewrite IH.
Qed.

Lemma substring_rest (s t : string) :
  substring (String.length s) (String.length t) (s ++ t)%string = t.
Proof.
  induction s as [|a s IH]; simpl; [|exact IH].
  induction t as [|b t IHt]; simpl; [reflexivity|now rewrite IHt].
Qed.

Lemma length_append (s t : string) :
  String.length (s ++ t)%string = String.length s + String.length t.
Proof. induction s; simpl; congruence. Qed.


Lemma HasSuffix_append (s t : string) : strings.HasSuffix (s ++ t)%string t = true.
Proof.
  unfold strings.HasSuffix. rewrite length_append.
  replace (String.length s + String.length t - String.length t)
    with (String.length s) by lia.
  rewrite substring_rest, String.eqb_refl, andb_true_r.
  apply Nat.leb_le; lia.
Qed.

Lemma TrimSuffix_append (s t : string) : strings.TrimSuffix (s ++ t)%string t = s.
Proof.
  unfold strings.TrimSuffix. rewrite HasSuffix_append, length_append.
  replace (String.length s + String.length t - String.length t)
    with (String.length s) by lia.
  apply substring_all.
Qed.

Lemma trimmed_dot (z : string) : trimmed (z ++ ".")%string = z.
Proof. unfold trimmed. now rewrite HasSuffix_append, TrimSuffix_append. Qed.

Lemma trimmed_dotless (z : string) :
  strings.HasSuffix z "." = false -> trimmed z = z.
Proof. unfold trimmed. now intros ->. Qed.

Lemma HasSuffix_trimmed_dot (z : string) :
  strings.HasSuffix z "." = false -> trimmed (trimmed (z ++ ".")%string) = z.
Proof. intros H. now rewrite trimmed_dot, trimmed_dotless. Qed.

Lemma wraps_longer (cause msg : string) :
  wraps cause msg -> String.length cause < String.length msg.
Proof.
  intros (d & Hd & ->). rewrite length_append.
  destruct d; [congruence|simpl; lia].
Qed.

(** ** Facts on runs and on the loop *)

Section Runs.

Context {World : Type}.
Implicit Types (w : World) (evs : list Event).

Lemma run_eta {A} (r : Run World A) :
  r = mkRun (value r) (world r) (events r).
Proof. now destruct r. Qed.

Lemma after_nil {A} (r : Run World A) : after [] r = r.
Proof. now destruct r. Qed.

Lemma after_after {A} evs evs' (r : Run World A) :
  after evs (after evs' r) = after (evs ++ evs') r.
Proof. unfold after; simpl. now rewrite app_assoc. Qed.

Lemma after_mkRun {A} evs (a : A) w evs' :
  after evs (mkRun a w evs') = mkRun a w (evs ++ evs').
Proof. reflexivity. Qed.

Lemma bind_after {A B} (m : M World A) (k : A -> M World B) w :
  bind World m k w = after (events (m w)) (k (value (m w)) (world (m w))).
Proof. reflexivity. Qed.

(** A remote call whose error is put behind a label, as every
    iteration ends. *)
Lemma remote_labelled (c : Call) (label : string)
      (f : World -> (Record + error) * World) w :
  bind World (remote World c Returned f)
       (fun r => match r with
                 | inr err => ret World (inr (errors.New (label ++ Error err)))
                 | inl r => ret World (inl r)
                 end) w
  = mkRun match fst (f w) with
          | inl r => inl r
          | inr err => inr (errors.New (label ++ Error err))
          end (snd (f w)) [answered c (f w)].
Proof.
  unfold bind, remote, answered; simpl.
  destruct (fst (f w)); reflexivity.
Qed.

Variable body : Record -> M World (Record + error).

Lemma rangeRecords_cons record rest acc w :
  rangeRecords body (record :: rest) acc w
  = match value (body record w) with
    | inl r => after (events (body record w))
                     (rangeRecords body rest (acc ++ [r])
                                   (world (body record w)))
    | inr err => mkRun ([], Some err) (world (body record w))
                       (events (body record w))
    end.
Proof.
  simpl. rewrite bind_after.
  destruct (value (body record w)); [reflexivity|].
  unfold after, ret; simpl. now rewrite app_nil_r.
Qed.

(** The loop on [pre ++ rest], when it gets through [pre]. *)
Lemma rangeRecords_app pre rest : forall acc w acc' w' evs,
  rangeRecords body pre acc w = mkRun (acc', None) w' evs ->
  rangeRecords body (pre ++ rest) acc w
  = after evs (rangeRecords body rest acc' w').
Proof.
  induction pre as [|record pre IH]; intros acc w acc' w' evs H.
  - simpl in H. unfold ret in H. injection H as -> -> <-.
    simpl. now rewrite after_nil.
  - rewrite <- app_comm_cons, rangeRecords_cons.
    rewrite rangeRecords_cons in H.
    destruct (value (body record w)) as [r|err]; [|discriminate].
    rewrite (run_eta (rangeRecords body pre _ _)) in H.
    unfold after in H; simpl in H. injection H as Hv Hw He.
    rewrite (IH _ _ acc' w' (events (rangeRecords body pre (acc ++ [r])
                                       (world (body record w))))).
    + rewrite after_after. now rewrite He.
    + rewrite (run_eta (rangeRecords body pre _ _)) at 1.
      now rewrite Hv, Hw.
Qed.

(** A loop that succeeds has appended one record per iteration. *)
Lemma rangeRecords_grows records : forall acc w rs,
  value (rangeRecords body records acc w) = (rs, None) ->
  exists new, rs = acc ++ new /\ List.length new = List.length records.
Proof.
  induction records as [|record records IH]; intros acc w rs H.
  - simpl in H. injection H as <-. exists []. now rewrite app_nil_r.
  - rewrite rangeRecords_cons in H.
    destruct (value (body record w)) as [r|err]; [|discriminate].
    simpl in H. apply IH in H as (new & -> & Hlen).
    exists (r :: new). rewrite <- app_assoc. simpl. auto.
Qed.

(** The record appended by the iteration that follows [pre] is at
    position [length pre] of the result. *)
Lemma resume_position pre rest acc w' evs label answer r rs :
  value (rangeRecords body pre [] w') = (acc, None) ->
  fst answer = inl r ->
  value (after evs (resume body rest acc label answer)) = (rs, None) ->
  nth_error rs (List.length pre) = Some r.
Proof.
  intros Hpre Hr H. unfold resume in H. rewrite Hr in H. simpl in H.
  apply rangeRecords_grows in Hpre as (new & -> & Hlen).
  apply rangeRecords_grows in H as (new' & -> & _).
  simpl. rewrite <- Hlen, <- app_assoc.
  rewrite nth_error_app2 by lia. now rewrite Nat.sub_diag.
Qed.

End Runs.

(** ** Facts on the provider's iterations *)

Section Iterations.

Context {Context World : Type}.
Variable UseClient : string -> string -> string -> Client Context World.
Variables (p : Provider) (ctx : Context).
Implicit Types (w : World) (zone : string) (record : Record).

Lemma GetRecords_run zone w :
  GetRecords UseClient p ctx zone w
  = let answer := client_GetRecords _ _ (client UseClient p) ctx (trimmed zone) w in
    mkRun match fst answer with
          | inl records => (records, None)
          | inr err => ([], Some err)
          end (snd answer)
          [mkEvent (CallGetRecords (trimmed zone))
                   (replyOf Listed (fst answer))].
Proof.
  unfold GetRecords. rewrite bind_after.
  unfold Client_GetRecords, remote, after, ret; simpl.
  fold (trimmed zone).
  destruct (fst (client_GetRecords _ _ (client UseClient p) ctx (trimmed zone) w)); reflexivity.
Qed.

Lemma DeleteRecords_body_run zone record w :
  DeleteRecords_body UseClient p ctx zone record w
  = replied (CallDeleteRecord zone (ID record)) "failed to delete record: "
            (client_DeleteRecord _ _ (client UseClient p) ctx zone (ID record) w).
Proof. apply remote_labelled. Qed.

Lemma SetRecords_body_create zone record w :
  ID record = "" ->
  SetRecords_body UseClient p ctx zone record w
  = replied (CallAddRecord zone (Type_ record) (Name record) (Value record)
                           (TTL record)) "failed to add record: "
            (client_AddRecord _ _ (client UseClient p) ctx zone (Type_ record) (Name record)
                              (Value record) (TTL record) w).
Proof.
  intros H. unfold SetRecords_body.
  rewrite (proj2 (length_zero_empty _) H). apply remote_labelled.
Qed.

Lemma SetRecords_body_update zone record w :
  ID record <> "" ->
  SetRecords_body UseClient p ctx zone record w
  = replied (CallUpdateRecord zone (ID record) (Name record) (Value record)
                              (TTL record)) "failed to update record: "
            (client_UpdateRecord _ _ (client UseClient p) ctx zone (ID record) (Name record)
                                 (Value record) (TTL record) w).
Proof.
  intros H. unfold SetRecords_body.
  destruct (String.length (ID record) =? 0)%nat eqn:E.
  - now apply length_zero_empty in E.
  - apply remote_labelled.
Qed.

Lemma scanExisting_current record existingRecords : forall stale current,
  scanExisting record existingRecords stale (Some current)
  = (stale ++ matching record existingRecords, Some current).
Proof.
  induction existingRecords as [|existing l IH]; intros stale current; simpl.
  - now rewrite app_nil_r.
  - fold (sameTypeName record existing).
    destruct (sameTypeName record existing); [|apply IH].
    rewrite IH, <- app_assoc. reflexivity.
Qed.

(** The scan keeps the first matching record and marks the later ones. *)
Lemma scanExisting_matching record existingRecords :
  scanExisting record existingRecords [] None
  = (tl (matching record existingRecords),
     hd_error (matching record existingRecords)).
Proof.
  induction existingRecords as [|existing l IH]; simpl; [reflexivity|].
  fold (sameTypeName record existing).
  destruct (sameTypeName record existing); [|exact IH].
  now rewrite scanExisting_current.
Qed.

Lemma DeleteRecords_guard zone (stale : list Record) w :
  (if (0 <? List.length stale)%nat
   then DeleteRecords UseClient p ctx zone stale
   else ret World ([], None)) w
  = DeleteRecords UseClient p ctx zone stale w.
Proof. destruct stale; reflexivity. Qed.

Lemma AppendRecords_body_plain zone record w :
  strings.HasPrefix (Name record) "_acme-challenge." = false ->
  AppendRecords_body UseClient p ctx zone record w
  = replied (CallAddRecord zone (Type_ record) (Name record) (Value record)
                           (TTL record)) "failed to add record: "
            (client_AddRecord _ _ (client UseClient p) ctx zone (Type_ record) (Name record)
                              (Value record) (TTL record) w).
Proof.
  intros H. unfold AppendRecords_body. rewrite H. apply remote_labelled.
Qed.

(** The iteration of [AppendRecords] on a challenge name, by cases on
    what the remote answers. *)
Lemma AppendRecords_body_acme zone record w :
  strings.HasPrefix (Name record) "_acme-challenge." = true ->
  AppendRecords_body UseClient p ctx zone record w
  = let listing := client_GetRecords _ _ (client UseClient p) ctx (trimmed zone) w in
    let listed := mkEvent (CallGetRecords (trimmed zone))
                          (replyOf Listed (fst listing)) in
    match fst listing with
    | inr err =>
        mkRun (inr (errors.New ("failed to get existing records: " ++ Error err)))
              (snd listing) [listed]
    | inl existingRecords =>
        let found := matching record existingRecords in
        let deleted :=
          DeleteRecords UseClient p ctx zone (tl found) (snd listing) in
        match snd (value deleted) with
        | Some err =>
            mkRun (inr (errors.New
                          ("failed to delete stale ACME challenge records: "
                             ++ Error err)))
                  (world deleted) (listed :: events deleted)
        | None =>
            after (listed :: events deleted)
              match found with
              | current :: _ =>
                  replied (CallUpdateRecord zone (ID current) (Name record)
                                            (Value record) (TTL record))
                          "failed to update ACME challenge record: "
                          (client_UpdateRecord _ _ (client UseClient p) ctx zone (ID current)
                             (Name record) (Value record) (TTL record)
                             (world deleted))
              | [] =>
                  replied (CallAddRecord zone (Type_ record) (Name record)
                                         (Value record) (TTL record))
                          "failed to add record: "
                          (client_AddRecord _ _ (client UseClient p) ctx zone (Type_ record)
                             (Name record) (Value record) (TTL record)
                             (world deleted))
              end
        end
    end.
Proof.
  intros H. unfold AppendRecords_body. rewrite H.
  rewrite bind_after, GetRecords_run. cbv zeta. simpl value. simpl world.
  simpl events.
  destruct (fst (client_GetRecords _ _ (client UseClient p) ctx (trimmed zone) w))
    as [existingRecords|err]; cbn [value world events fst snd];
    [|reflexivity].
  rewrite scanExisting_matching. cbn [fst snd].
  rewrite bind_after, DeleteRecords_guard.
  set (deleted := DeleteRecords UseClient p ctx zone _ _).
  destruct (snd (value deleted)) as [err|].
  - unfold after, ret; simpl. now rewrite app_nil_r.
  - destruct (matching record existingRecords) as [|current found];
      cbn [hd_error]; unfold Client_UpdateRecord, Client_AddRecord;
      rewrite remote_labelled, after_after; reflexivity.
Qed.

End Iterations.

(** ** Facts on whole batches *)

Section Batches.

Context {World : Type}.
Variable body : Record -> M World (Record + error).
Implicit Types (w : World) (evs : list Event).

Lemma rangeRecords_replied record rest acc w evs c label answer :
  body record w = after evs (replied c label answer) ->
  rangeRecords body (record :: rest) acc w
  = after (evs ++ [answered c answer]) (resume body rest acc label answer).
Proof.
  intros H. rewrite rangeRecords_cons, H. unfold replied, resume; simpl.
  destruct (fst answer); [reflexivity|].
  unfold after; simpl. now rewrite app_nil_r.
Qed.

(** The batch [pre ++ record :: rest], when the loop gets through [pre]
    and the iteration on [record] ends with a remote call. *)
Lemma rangeRecords_reaches pre record rest w acc w' evs evs' c label answer :
  rangeRecords body pre [] w = mkRun (acc, None) w' evs ->
  body record w' = after evs' (replied c label answer) ->
  rangeRecords body (pre ++ record :: rest) [] w
  = after (evs ++ evs' ++ [answered c answer])
          (resume body rest acc label answer).
Proof.
  intros Hpre H. rewrite (rangeRecords_app _ _ _ _ _ _ _ _ Hpre).
  rewrite (rangeRecords_replied _ _ _ _ _ _ _ _ H). apply after_after.
Qed.

(** The same batch, when the iteration on [record] returns an error. *)
Lemma rangeRecords_stops pre record rest w acc w' evs err w'' evs' :
  rangeRecords body pre [] w = mkRun (acc, None) w' evs ->
  body record w' = mkRun (inr err) w'' evs' ->
  rangeRecords body (pre ++ record :: rest) [] w
  = mkRun ([], Some err) w'' (evs ++ evs').
Proof.
  intros Hpre H. rewrite (rangeRecords_app _ _ _ _ _ _ _ _ Hpre).
  rewrite rangeRecords_cons, H. reflexivity.
Qed.

(** What the iteration on [record] contributes: its events, then the
    rest of the batch; the record it yields is the entry of the result
    at the position of [record]. *)
Lemma rangeRecords_iteration pre record rest w acc w' evs evs' c label answer :
  rangeRecords body pre [] w = mkRun (acc, None) w' evs ->
  body record w' = after evs' (replied c label answer) ->
  rangeRecords body (pre ++ record :: rest) [] w
  = after (evs ++ evs' ++ [answered c answer])
          (resume body rest acc label answer)
  /\ forall r rs,
       fst answer = inl r ->
       value (rangeRecords body (pre ++ record :: rest) [] w) = (rs, None) ->
       nth_error rs (List.length pre) = Some r.
Proof.
  intros Hpre H.
  pose proof (rangeRecords_reaches _ _ rest _ _ _ _ _ _ _ _ Hpre H) as Hfull.
  split; [exact Hfull|]. intros r rs Hr Hrs. rewrite Hfull in Hrs.
  eapply resume_position; [|exact Hr|exact Hrs]. now rewrite Hpre.
Qed.




(** The events of a batch start with those of its first iteration. *)
Lemma rangeRecords_events_cons record rest acc w :
  exists more,
    events (rangeRecords body (record :: rest) acc w)
    = events (body record w) ++ more.
Proof.
  rewrite rangeRecords_cons. destruct (value (body record w)).
  - eexists. reflexivity.
  - exists []. simpl. now rewrite app_nil_r.
Qed.

(** Iterations that make one call each, [callOf record]. *)
Variable callOf : Record -> Call.
Hypothesis one_call : forall record w,
  exists label answer, body record w = replied (callOf record) label answer.

Lemma rangeRecords_one_call records : forall acc w,
  let r := rangeRecords body records acc w in
  map call (events r)
  = map callOf (firstn (List.length (events r)) records)
  /\ forall rs, value r = (rs, None) ->
       List.length (events r) = List.length records
       /\ exists new, rs = acc ++ new /\ map reply (events r) = map Returned new.
Proof.
  induction records as [|record records IH]; intros acc w r; subst r.
  - split; [reflexivity|]. intros rs H. injection H as <-.
    split; [reflexivity|]. exists []. now rewrite app_nil_r.
  - rewrite rangeRecords_cons.
    destruct (one_call record w) as (label & answer & ->).
    unfold replied, answered; simpl.
    destruct (fst answer) as [x|err]; simpl.
    + destruct (IH (acc ++ [x]) (snd answer)) as [Hcalls Hok].
      split; [now rewrite Hcalls at 1|].
      intros rs H. apply Hok in H as (Hlen & new & -> & Hreply).
      split; [now rewrite Hlen|]. exists (x :: new).
      rewrite <- app_assoc. simpl. now rewrite Hreply.
    + split; [reflexivity|]. intros rs H. discriminate.
Qed.

End Batches.

(** ** Facts on the provider's methods *)

Section Methods.

Context {Context World : Type}.
Variable UseClient : string -> string -> string -> Client Context World.
Variables (p : Provider) (ctx : Context).
Implicit Types (w : World) (zone : string) (record : Record).





(** The calls of [DeleteRecords]: delete calls for the records of the
    batch, in order, as far as the loop got. *)
Lemma DeleteRecords_calls zone records w :
  let r := DeleteRecords UseClient p ctx zone records w in
  map call (events r)
  = map (fun record => CallDeleteRecord (trimmed zone) (ID record))
        (firstn (List.length (events r)) records)
  /\ forall rs, value r = (rs, None) ->
       List.length (events r) = List.length records
       /\ map reply (events r) = map Returned rs.
Proof.
  pose proof (rangeRecords_one_call
                (DeleteRecords_body UseClient p ctx (trimmed zone))
                (fun record => CallDeleteRecord (trimmed zone) (ID record)))
    as H.
  destruct (H (fun record w' =>
                 ex_intro _ _ (ex_intro _ _
                   (DeleteRecords_body_run UseClient p ctx _ record w')))
              records [] w) as [Hcalls Hok].
  split; [exact Hcalls|].
  intros rs Hrs. apply Hok in Hrs as (Hlen & new & -> & Hreply). auto.
Qed.

Lemma DeleteRecords_all_calls zone records w rs :
  value (DeleteRecords UseClient p ctx zone records w) = (rs, None) ->
  map call (events (DeleteRecords UseClient p ctx zone records w))
  = map (fun record => CallDeleteRecord (trimmed zone) (ID record)) records
  /\ map reply (events (DeleteRecords UseClient p ctx zone records w))
     = map Returned rs.
Proof.
  intros Hrs. destruct (DeleteRecords_calls zone records w) as [Hcalls Hok].
  destruct (Hok rs Hrs) as [Hlen Hreply]. split; [|exact Hreply].
  rewrite Hcalls, Hlen. now rewrite firstn_all.
Qed.




End Methods.

(** ** Properties of the provider *)

Section Properties.

Context {Context World : Type}.
Variable UseClient : string -> string -> string -> Client Context World.
Variables (p : Provider) (ctx : Context).
Implicit Types (w : World) (zone : string) (record : Record).

(** C6.  [SetRecords] on a batch [pre ++ record :: post] whose records
    before [record] were set without error: for [record] it makes one
    remote call, a create call with the record's type, name, value and
    TTL when the identifier is empty, an update call keyed by the
    identifier otherwise, and never both; the record the call returns is
    appended to the result, at the position of [record], and the loop
    goes on with [post].  Names play no part: a challenge name is set
    like any other. *)
Theorem SetRecords_create_or_update
        zone pre record post w updated w' evs :
  SetRecords UseClient p ctx zone pre w = mkRun (updated, None) w' evs ->
  let z := trimmed zone in
  let body := SetRecords_body UseClient p ctx z in
  let full := SetRecords UseClient p ctx zone (pre ++ record :: post) w in
  (ID record = "" ->
   let create := CallAddRecord z (Type_ record) (Name record) (Value record)
                               (TTL record) in
   let answer := client_AddRecord _ _ (client UseClient p) ctx z
                   (Type_ record) (Name record) (Value record) (TTL record)
                   w' in
   full = after (evs ++ [answered create answer])
                (resume body post updated "failed to add record: " answer)
   /\ forall r rs, fst answer = inl r -> value full = (rs, None) ->
                   nth_error rs (List.length pre) = Some r)
  /\ (ID record <> "" ->
      let update := CallUpdateRecord z (ID record) (Name record)
                                     (Value record) (TTL record) in
      let answer := client_UpdateRecord _ _ (client UseClient p) ctx z
                      (ID record) (Name record) (Value record) (TTL record)
                      w' in
      full = after (evs ++ [answered update answer])
                   (resume body post updated "failed to update record: " answer)
      /\ forall r rs, fst answer = inl r -> value full = (rs, None) ->
                      nth_error rs (List.length pre) = Some r).
Proof.
  intros Hpre z body full. split; intros E; cbv zeta.
  - apply (rangeRecords_iteration body pre record post w updated w' evs []
             _ _ _ Hpre).
    rewrite after_nil. now apply SetRecords_body_create.
  - apply (rangeRecords_iteration body pre record post w updated w' evs []
             _ _ _ Hpre).
    rewrite after_nil. now apply SetRecords_body_update.
Qed.

(** C7.  [DeleteRecords] makes one remote delete call per record, keyed
    by the record's identifier, in batch order, as far as the loop gets.
    On a batch [pre ++ record :: post] whose records before [record]
    were deleted without error, the call for [record] is
    [client_DeleteRecord] on the zone and the identifier of [record], in
    the remote world the earlier deletions left; the event of the run
    carries what that call answered, the loop goes on with [post] in the
    world the call left, and the record the call returned, the
    provider's confirmation, is the entry of the result at the position
    of [record].  When the method returns no error the loop got through
    the whole batch, and the result lists, in batch order, the records
    the delete calls returned. *)
Theorem DeleteRecords_one_delete_each zone records w :
  let z := trimmed zone in
  let r := DeleteRecords UseClient p ctx zone records w in
  map call (events r)
  = map (fun record => CallDeleteRecord z (ID record))
        (firstn (List.length (events r)) records)
  /\ (forall rs,
         value r = (rs, None) ->
         map call (events r)
         = map (fun record => CallDeleteRecord z (ID record)) records
         /\ map reply (events r) = map Returned rs)
  /\ forall pre record post deleted w' evs,
       records = pre ++ record :: post ->
       DeleteRecords UseClient p ctx zone pre w = mkRun (deleted, None) w' evs ->
       let answer :=
         client_DeleteRecord _ _ (client UseClient p) ctx z (ID record) w' in
       r = after (evs ++ [answered (CallDeleteRecord z (ID record)) answer])
                 (resume (DeleteRecords_body UseClient p ctx z) post deleted
                         "failed to delete record: " answer)
       /\ forall confirmation rs,
            fst answer = inl confirmation -> value r = (rs, None) ->
            nth_error rs (List.length pre) = Some confirmation.
Proof.
  intros z r. split; [|split].
  - exact (proj1 (DeleteRecords_calls UseClient p ctx zone records w)).
  - intros rs Hrs. now apply DeleteRecords_all_calls.
  - intros pre record post deleted w' evs -> Hpre answer. subst r.
    apply (rangeRecords_iteration (DeleteRecords_body UseClient p ctx z)
             pre record post w deleted w' evs [] _ _ _ Hpre).
    rewrite after_nil. apply DeleteRecords_body_run.
Qed.

(** C9, as amended.  [GetRecords] makes one remote call, a listing of
    the zone with one trailing dot removed; it returns the listed
    records as they are, in the listing's order, and no error, or
    [nil] and the error of the listing itself, unchanged. *)
Theorem GetRecords_verbatim zone w :
  let answer :=
    client_GetRecords _ _ (client UseClient p) ctx (trimmed zone) w in
  let r := GetRecords UseClient p ctx zone w in
  events r = [mkEvent (CallGetRecords (trimmed zone))
                      (replyOf Listed (fst answer))]
  /\ world r = snd answer
  /\ (forall records, fst answer = inl records -> value r = (records, None))
  /\ (forall err, fst answer = inr err -> value r = ([], Some err)).
Proof.
  intros answer r. subst r. rewrite GetRecords_run. cbv zeta.
  fold answer. simpl. repeat split; intros x ->; reflexivity.
Qed.

(** C5, as amended.  For a zone name that does not itself end in a dot,
    each of the four methods, called with the name followed by a dot,
    makes the same remote calls and returns the same records and error
    as when called with the name alone. *)
Theorem trailing_dot_ignored zone records w :
  strings.HasSuffix zone "." = false ->
  GetRecords UseClient p ctx (zone ++ ".") w
  = GetRecords UseClient p ctx zone w
  /\ AppendRecords UseClient p ctx (zone ++ ".") records w
     = AppendRecords UseClient p ctx zone records w
  /\ SetRecords UseClient p ctx (zone ++ ".") records w
     = SetRecords UseClient p ctx zone records w
  /\ DeleteRecords UseClient p ctx (zone ++ ".") records w
     = DeleteRecords UseClient p ctx zone records w.
Proof.
  intros H.
  unfold GetRecords, AppendRecords, SetRecords, DeleteRecords. cbv zeta.
  fold (trimmed (zone ++ ".")). fold (trimmed zone).
  rewrite trimmed_dot, (trimmed_dotless _ H). auto.
Qed.

End Properties.

(** ** Properties of the reconciliation in [AppendRecords] *)

Section Reconciliation.

Context {Context World : Type}.
Variable UseClient : string -> string -> string -> Client Context World.
Variables (p : Provider) (ctx : Context).
Implicit Types (w : World) (zone : string) (record : Record).

(** The iteration on a challenge name, when the listing and the
    deletion of the stale records go through. *)
Lemma AppendRecords_body_reconciles zone record w existingRecords w2
      deleted w3 evs :
  strings.HasPrefix (Name record) "_acme-challenge." = true ->
  client_GetRecords _ _ (client UseClient p) ctx (trimmed zone) w
  = (inl existingRecords, w2) ->
  DeleteRecords UseClient p ctx zone (tl (matching record existingRecords)) w2
  = mkRun (deleted, None) w3 evs ->
  AppendRecords_body UseClient p ctx zone record w
  = after (mkEvent (CallGetRecords (trimmed zone)) (Listed existingRecords)
             :: evs)
      match matching record existingRecords with
      | current :: _ =>
          replied (CallUpdateRecord zone (ID current) (Name record)
                                    (Value record) (TTL record))
                  "failed to update ACME challenge record: "
                  (client_UpdateRecord _ _ (client UseClient p) ctx zone
                     (ID current) (Name record) (Value record) (TTL record) w3)
      | [] =>
          replied (CallAddRecord zone (Type_ record) (Name record)
                                 (Value record) (TTL record))
                  "failed to add record: "
                  (client_AddRecord _ _ (client UseClient p) ctx zone
                     (Type_ record) (Name record) (Value record) (TTL record)
                     w3)
      end.
Proof.
  intros H Hlist Hdel. rewrite (AppendRecords_body_acme _ _ _ _ _ _ H).
  cbv zeta. rewrite Hlist. cbn [fst snd]. rewrite Hdel. reflexivity.
Qed.

(** Every iteration on a challenge name starts with the listing. *)
Lemma AppendRecords_body_lists zone record w :
  strings.HasPrefix (Name record) "_acme-challenge." = true ->
  exists more,
    events (AppendRecords_body UseClient p ctx zone record w)
    = mkEvent (CallGetRecords (trimmed zone))
              (replyOf Listed
                 (fst (client_GetRecords _ _ (client UseClient p) ctx
                                         (trimmed zone) w)))
        :: more.
Proof.
  intros H. rewrite (AppendRecords_body_acme _ _ _ _ _ _ H). cbv zeta.
  destruct (fst (client_GetRecords _ _ _ ctx (trimmed zone) w)).
  - destruct (snd (value (DeleteRecords _ _ _ _ _ _))); eexists; reflexivity.
  - eexists; reflexivity.
Qed.







(** C2.  [AppendRecords] on a batch [pre ++ record :: post] whose
    candidates before [record] went through, for a challenge name of
    which the listing holds one record of the candidate's type and
    name: after the listing, the only remote call made for [record] is
    an update, keyed by the identifier of that record, with the
    candidate's name, value and TTL; nothing is created or deleted.
    The record the update returns is the entry of the result at the
    position of [record]. *)
Theorem AppendRecords_single_match
        zone pre record post w created w1 evs existingRecords w2 current :
  strings.HasPrefix (Name record) "_acme-challenge." = true ->
  AppendRecords UseClient p ctx zone pre w = mkRun (created, None) w1 evs ->
  let z := trimmed zone in
  client_GetRecords _ _ (client UseClient p) ctx (trimmed z) w1
  = (inl existingRecords, w2) ->
  matching record existingRecords = [current] ->
  let update := CallUpdateRecord z (ID current) (Name record) (Value record)
                                 (TTL record) in
  let answer := client_UpdateRecord _ _ (client UseClient p) ctx z
                  (ID current) (Name record) (Value record) (TTL record) w2 in
  let full := AppendRecords UseClient p ctx zone (pre ++ record :: post) w in
  full = after (evs ++ [mkEvent (CallGetRecords (trimmed z))
                                (Listed existingRecords);
                        answered update answer])
               (resume (AppendRecords_body UseClient p ctx z) post created
                       "failed to update ACME challenge record: " answer)
  /\ forall r rs, fst answer = inl r -> value full = (rs, None) ->
                  nth_error rs (List.length pre) = Some r.
Proof.
  intros H Hpre z Hlist Hm update answer full.
  pose proof (AppendRecords_body_reconciles z record w1 existingRecords w2
                [] w2 [] H Hlist) as Hbody.
  rewrite Hm in Hbody. specialize (Hbody eq_refl).
  exact (rangeRecords_iteration _ pre record post w created w1 evs _ _ _ _
           Hpre Hbody).
Qed.


(** C3.  [AppendRecords] on a batch [pre ++ record :: post] whose
    candidates before [record] went through.  When the name of
    [record] is not a challenge name, the only remote call made for it
    is a create call with its type, name, value and TTL.  When it is a
    challenge name and the listing holds no record of its type and
    name, the calls made for it are the listing and then that create
    call.  Nothing is updated or deleted, and the record the create
    call returns is the entry of the result at the position of
    [record]. *)
Theorem AppendRecords_creates
        zone pre record post w created w1 evs :
  AppendRecords UseClient p ctx zone pre w = mkRun (created, None) w1 evs ->
  let z := trimmed zone in
  let body := AppendRecords_body UseClient p ctx z in
  let create := CallAddRecord z (Type_ record) (Name record) (Value record)
                              (TTL record) in
  let full := AppendRecords UseClient p ctx zone (pre ++ record :: post) w in
  (strings.HasPrefix (Name record) "_acme-challenge." = false ->
   let answer := client_AddRecord _ _ (client UseClient p) ctx z
                   (Type_ record) (Name record) (Value record) (TTL record)
                   w1 in
   full = after (evs ++ [answered create answer])
                (resume body post created "failed to add record: " answer)
   /\ forall r rs, fst answer = inl r -> value full = (rs, None) ->
                   nth_error rs (List.length pre) = Some r)
  /\ (strings.HasPrefix (Name record) "_acme-challenge." = true ->
      forall existingRecords w2,
        client_GetRecords _ _ (client UseClient p) ctx (trimmed z) w1
        = (inl existingRecords, w2) ->
        matching record existingRecords = [] ->
        let answer := client_AddRecord _ _ (client UseClient p) ctx z
                        (Type_ record) (Name record) (Value record)
                        (TTL record) w2 in
        full = after (evs ++ [mkEvent (CallGetRecords (trimmed z))
                                      (Listed existingRecords);
                              answered create answer])
                     (resume body post created "failed to add record: " answer)
        /\ forall r rs, fst answer = inl r -> value full = (rs, None) ->
                        nth_error rs (List.length pre) = Some r).
Proof.
  intros Hpre z body create full. split.
  - intros H answer.
    apply (rangeRecords_iteration body pre record post w created w1 evs []
             _ _ _ Hpre).
    rewrite after_nil. now apply AppendRecords_body_plain.
  - intros H existingRecords w2 Hlist Hm answer.
    pose proof (AppendRecords_body_reconciles z record w1 existingRecords w2
                  [] w2 [] H Hlist) as Hbody.
    rewrite Hm in Hbody. specialize (Hbody eq_refl).
    exact (rangeRecords_iteration _ pre record post w created w1 evs _ _ _ _
             Hpre Hbody).
Qed.


(** C10.  Whether [AppendRecords] reconciles depends on the name of the
    candidate alone; its type plays no part in the choice.  On a batch
    [pre ++ record :: post] whose candidates before [record] went
    through: when the name of [record] is a challenge name, whatever its
    type, the first remote call made for it is the listing of the zone,
    and, when the listing and the deletions go through, the calls that
    follow are one delete call for each existing record of the type and
    name of [record] but the first, and then an update call keyed by the
    identifier of the first such record, or a create call when there is
    none.  When the name is not a challenge name, whatever the type, the
    only remote call made for [record] is a create call. *)
Theorem reconciliation_by_name_only
        zone pre record post w created w1 evs :
  AppendRecords UseClient p ctx zone pre w = mkRun (created, None) w1 evs ->
  let z := trimmed zone in
  let body := AppendRecords_body UseClient p ctx z in
  let create := CallAddRecord z (Type_ record) (Name record) (Value record)
                              (TTL record) in
  let full := AppendRecords UseClient p ctx zone (pre ++ record :: post) w in
  (strings.HasPrefix (Name record) "_acme-challenge." = true ->
   (exists answer more,
       events full = evs ++ mkEvent (CallGetRecords (trimmed z)) answer :: more)
   /\ forall existingRecords w2 deleted w3 evs',
       client_GetRecords _ _ (client UseClient p) ctx (trimmed z) w1
       = (inl existingRecords, w2) ->
       DeleteRecords UseClient p ctx z (tl (matching record existingRecords)) w2
       = mkRun (deleted, None) w3 evs' ->
       let listed := mkEvent (CallGetRecords (trimmed z))
                             (Listed existingRecords) in
       map call evs'
       = map (fun existing => CallDeleteRecord (trimmed z) (ID existing))
             (tl (matching record existingRecords))
       /\ match matching record existingRecords with
          | current :: _ =>
              let update := CallUpdateRecord z (ID current) (Name record)
                                             (Value record) (TTL record) in
              let answer := client_UpdateRecord _ _ (client UseClient p) ctx z
                              (ID current) (Name record) (Value record)
                              (TTL record) w3 in
              full = after (evs ++ listed :: evs' ++ [answered update answer])
                           (resume body post created
                                   "failed to update ACME challenge record: "
                                   answer)
          | [] =>
              let answer := client_AddRecord _ _ (client UseClient p) ctx z
                              (Type_ record) (Name record) (Value record)
                              (TTL record) w3 in
              full = after (evs ++ listed :: evs' ++ [answered create answer])
                           (resume body post created "failed to add record: "
                                   answer)
          end)
  /\ (strings.HasPrefix (Name record) "_acme-challenge." = false ->
      let answer := client_AddRecord _ _ (client UseClient p) ctx z
                      (Type_ record) (Name record) (Value record) (TTL record)
                      w1 in
      full = after (evs ++ [answered create answer])
                   (resume body post created "failed to add record: " answer)).
Proof.
  intros Hpre z body create full. split; [intros H; split|intros H answer].
  - subst full. unfold AppendRecords. cbv zeta. fold (trimmed zone). fold z.
    fold body. unfold AppendRecords in Hpre. cbv zeta in Hpre.
    fold (trimmed zone) in Hpre. fold z in Hpre. fold body in Hpre.
    rewrite (rangeRecords_app _ _ _ _ _ _ _ _ Hpre).
    unfold after. cbn [events].
    destruct (rangeRecords_events_cons body record post created w1)
      as (more & ->).
    subst body. destruct (AppendRecords_body_lists z record w1 H) as (more' & ->).
    eexists _, _. rewrite <- app_comm_cons. reflexivity.
  - intros existingRecords w2 deleted w3 evs' Hlist Hdel listed. split.
    + pose proof (DeleteRecords_all_calls UseClient p ctx z
                    (tl (matching record existingRecords)) w2 deleted) as Hok.
      rewrite Hdel in Hok. exact (proj1 (Hok eq_refl)).
    + pose proof (AppendRecords_body_reconciles z record w1 existingRecords w2
                    deleted w3 evs' H Hlist Hdel) as Hbody.
      destruct (matching record existingRecords) as [|current found]; cbv zeta;
        exact (proj1 (rangeRecords_iteration _ pre record post w created w1 evs
                        _ _ _ _ Hpre Hbody)).
  - apply (rangeRecords_reaches body pre record post w created w1 evs []
             _ _ _ Hpre).
    rewrite after_nil. now apply AppendRecords_body_plain.
Qed.

End Reconciliation.

(** ** Further properties of loops *)

Section Loops.

Context {World : Type}.
Implicit Types (w : World) (evs : list Event).

Lemma rangeRecords_split (body : Record -> M World (Record + error)) pre post :
  forall acc w,
    rangeRecords body (pre ++ post) acc w
    = match snd (value (rangeRecords body pre acc w)) with
      | None =>
          after (events (rangeRecords body pre acc w))
                (rangeRecords body post
                              (fst (value (rangeRecords body pre acc w)))
                              (world (rangeRecords body pre acc w)))
      | Some _ => rangeRecords body pre acc w
      end.
Proof.
  induction pre as [|record pre IH]; intros acc w.
  - simpl. now rewrite after_nil.
  - rewrite <- app_comm_cons, !rangeRecords_cons.
    destruct (value (body record w)) as [r|err]; [|reflexivity].
    rewrite IH. cbn [value after].
    destruct (snd (value (rangeRecords body pre (acc ++ [r]) _)));
      [reflexivity|].
    cbn [events world after]. now rewrite after_after.
Qed.

(** The slice built so far plays no part in what the loop does. *)
Lemma rangeRecords_acc (body : Record -> M World (Record + error)) records :
  forall acc w,
    rangeRecords body records acc w
    = mkRun match snd (value (rangeRecords body records [] w)) with
            | None => (acc ++ fst (value (rangeRecords body records [] w)), None)
            | Some _ => value (rangeRecords body records [] w)
            end
            (world (rangeRecords body records [] w))
            (events (rangeRecords body records [] w)).
Proof.
  induction records as [|record records IH]; intros acc w.
  - simpl. unfold ret. now rewrite app_nil_r.
  - rewrite !rangeRecords_cons.
    destruct (value (body record w)) as [r|err]; [|reflexivity].
    rewrite (IH (acc ++ [r])), (IH ([] ++ [r])).
    destruct (rangeRecords body records [] (world (body record w)))
      as [[rs [e|]] w' evs]; cbn; [reflexivity|].
    now rewrite <- app_assoc.
Qed.

Lemma rangeRecords_andThen (body : Record -> M World (Record + error))
      pre post w :
  rangeRecords body (pre ++ post) [] w
  = andThen (rangeRecords body pre [] w)
            (rangeRecords body post []
                          (world (rangeRecords body pre [] w))).
Proof.
  rewrite rangeRecords_split. unfold andThen.
  destruct (snd (value (rangeRecords body pre [] w))); [reflexivity|].
  rewrite (rangeRecords_acc body post
             (fst (value (rangeRecords body pre [] w)))).
  reflexivity.
Qed.

(** Loops whose iterations agree on the records of the batch agree. *)
Lemma rangeRecords_ext (body body' : Record -> M World (Record + error)) records :
  (forall record w, In record records -> body record w = body' record w) ->
  forall acc w,
    rangeRecords body records acc w = rangeRecords body' records acc w.
Proof.
  induction records as [|record records IH]; intros H acc w; [reflexivity|].
  rewrite !rangeRecords_cons, <- (H record w (or_introl eq_refl)).
  destruct (value (body record w)); [|reflexivity].
  rewrite IH; [reflexivity|]. intros r' w' Hin. apply H. now right.
Qed.

Lemma rangeRecords_map (body : Record -> M World (Record + error))
      (f : Record -> Record) records :
  forall acc w,
    rangeRecords (fun record => body (f record)) records acc w
    = rangeRecords body (map f records) acc w.
Proof.
  induction records as [|record records IH]; intros acc w; [reflexivity|].
  cbn [map]. rewrite !rangeRecords_cons.
  destruct (value (body (f record) w)); [|reflexivity]. now rewrite IH.
Qed.

(** An event of a batch is an event of the iteration on one of its
    records, all of whose events are events of the batch. *)
Lemma rangeRecords_event (body : Record -> M World (Record + error)) records :
  forall acc w e,
    In e (events (rangeRecords body records acc w)) ->
    exists record w',
      In record records /\ In e (events (body record w'))
      /\ incl (events (body record w'))
              (events (rangeRecords body records acc w)).
Proof.
  induction records as [|record records IH]; intros acc w e Hin; [destruct Hin|].
  rewrite rangeRecords_cons in *.
  destruct (value (body record w)) as [r|err].
  - cbn [events after] in *. apply in_app_or in Hin as [Hin|Hin].
    + exists record, w. repeat split; [now left|exact Hin|].
      apply incl_appl, incl_refl.
    + apply IH in Hin as (record' & w' & Hr & He & Hincl).
      exists record', w'. repeat split; [now right|exact He|].
      now apply incl_appr.
  - exists record, w. repeat split; [now left|exact Hin|apply incl_refl].
Qed.


End Loops.

(** ** Further properties of the provider *)

Section Further.

Context {Context World : Type}.
Variable UseClient : string -> string -> string -> Client Context World.
Variables (p : Provider) (ctx : Context).
Implicit Types (w : World) (zone : string) (record : Record).

Lemma SetRecords_body_setCall zone record w :
  exists label answer,
    SetRecords_body UseClient p ctx zone record w
    = replied (setCall zone record) label answer.
Proof.
  unfold setCall. destruct (string_dec (ID record) "") as [E|E].
  - rewrite (SetRecords_body_create _ _ _ _ _ _ E).
    rewrite (proj2 (length_zero_empty _) E). eauto.
  - rewrite (SetRecords_body_update _ _ _ _ _ _ E).
    destruct (String.length (ID record) =? 0)%nat eqn:L.
    + now apply length_zero_empty in L.
    + eauto.
Qed.

Lemma SetRecords_one_call_each_aux zone records w :
  map call (events (SetRecords UseClient p ctx zone records w))
  = map (setCall (trimmed zone))
        (firstn (List.length (events (SetRecords UseClient p ctx zone records w)))
                records)
  /\ forall rs,
       value (SetRecords UseClient p ctx zone records w) = (rs, None) ->
       List.length (events (SetRecords UseClient p ctx zone records w))
       = List.length records
       /\ map reply (events (SetRecords UseClient p ctx zone records w))
          = map Returned rs.
Proof.
  destruct (rangeRecords_one_call
              (SetRecords_body UseClient p ctx (trimmed zone))
              (setCall (trimmed zone))
              (SetRecords_body_setCall (trimmed zone)) records [] w)
    as [Hcalls Hok].
  split; [exact Hcalls|]. intros rs Hrs.
  destruct (Hok rs Hrs) as (Hlen & new & -> & Hreply). auto.
Qed.



(** X3.  A batch method called on [pre ++ post] does what it does on
    [pre] and then, when that returned no error, what it does on [post]
    in the remote world the first call left: the calls of both, and the
    records of both or the error of the second.  When it fails on [pre]
    it does on [pre ++ post] what it does on [pre]. *)
Theorem batches_compose zone pre post w :
  AppendRecords UseClient p ctx zone (pre ++ post) w
  = andThen (AppendRecords UseClient p ctx zone pre w)
            (AppendRecords UseClient p ctx zone post
               (world (AppendRecords UseClient p ctx zone pre w)))
  /\ SetRecords UseClient p ctx zone (pre ++ post) w
     = andThen (SetRecords UseClient p ctx zone pre w)
               (SetRecords UseClient p ctx zone post
                  (world (SetRecords UseClient p ctx zone pre w)))
  /\ DeleteRecords UseClient p ctx zone (pre ++ post) w
     = andThen (DeleteRecords UseClient p ctx zone pre w)
               (DeleteRecords UseClient p ctx zone post
                  (world (DeleteRecords UseClient p ctx zone pre w))).
Proof.
  repeat split; apply rangeRecords_andThen.
Qed.

Lemma AppendRecords_body_withoutID zone record w :
  AppendRecords_body UseClient p ctx zone record w
  = AppendRecords_body UseClient p ctx zone (withoutID record) w.
Proof.
  destruct (strings.HasPrefix (Name record) "_acme-challenge.") eqn:E.
  - rewrite (AppendRecords_body_acme _ _ _ _ _ _ E).
    rewrite (AppendRecords_body_acme _ _ _ _ (withoutID record) _ E).
    reflexivity.
  - rewrite (AppendRecords_body_plain _ _ _ _ _ _ E).
    rewrite (AppendRecords_body_plain _ _ _ _ (withoutID record) _ E).
    reflexivity.
Qed.

(** X4.  [AppendRecords] does not read the identifiers of its
    candidates: on a batch and on the same batch with the identifiers
    blanked it makes the same calls and returns the same. *)
Theorem AppendRecords_ignores_identifiers zone records w :
  AppendRecords UseClient p ctx zone records w
  = AppendRecords UseClient p ctx zone (map withoutID records) w.
Proof.
  unfold AppendRecords. cbv zeta. rewrite <- rangeRecords_map.
  apply rangeRecords_ext. intros record w' _.
  apply AppendRecords_body_withoutID.
Qed.

(** X5.  On a batch without challenge names, [AppendRecords] is
    [SetRecords] on the batch with the identifiers blanked: same calls,
    same records, same error. *)
Theorem AppendRecords_plain_is_SetRecords zone records w :
  Forall (fun record => challenge record = false) records ->
  AppendRecords UseClient p ctx zone records w
  = SetRecords UseClient p ctx zone (map withoutID records) w.
Proof.
  intros H. unfold AppendRecords, SetRecords. cbv zeta.
  rewrite <- rangeRecords_map. apply rangeRecords_ext.
  intros record w' Hin. rewrite Forall_forall in H.
  rewrite (AppendRecords_body_plain _ _ _ _ _ _ (H record Hin)).
  now rewrite (SetRecords_body_create _ _ _ _ (withoutID record) _ eq_refl).
Qed.

(** A batch of iterations that make one call each stops at the first
    call that fails. *)
Lemma rangeRecords_first_failure
      (body : Record -> M World (Record + error))
      (callOf : Record -> Call) (labelOf : Record -> string)
      (answerOf : Record -> World -> (Record + error) * World) :
  (forall record w,
      body record w = replied (callOf record) (labelOf record)
                              (answerOf record w)) ->
  forall records acc w err,
    snd (value (rangeRecords body records acc w)) = Some err ->
    exists done failed rest cause before,
      records = done ++ failed :: rest
      /\ events (rangeRecords body records acc w)
         = before ++ [mkEvent (callOf failed) (Failed cause)]
      /\ map call before = map callOf done
      /\ Forall succeeded before
      /\ value (rangeRecords body records acc w)
         = ([], Some (errors.New (labelOf failed ++ Error cause))).
Proof.
  intros Hbody. induction records as [|record records IH]; intros acc w err H.
  - discriminate H.
  - rewrite rangeRecords_cons in *. rewrite Hbody in *.
    unfold replied, answered in *. cbn [value world events] in *.
    destruct (fst (answerOf record w)) as [r|cause] eqn:E.
    + cbn [value after events] in *.
      apply IH in H as (done & failed & rest & cause & before
                        & -> & -> & Hcalls & Hall & ->).
      exists (record :: done), failed, rest, cause,
        (mkEvent (callOf record) (Returned r) :: before).
      repeat split; cbn; auto.
      * now rewrite Hcalls.
      * constructor; [reflexivity|exact Hall].
    + exists [], record, records, cause, []. repeat split; auto.
Qed.

(** X6.  When [SetRecords] or [DeleteRecords] returns an error, the
    batch is cut in three: the records before the one that failed each
    had their call, which succeeded; the call for the record that failed
    is the last call made; the records after it had none.  The error is
    the error of that call behind "failed to add record: ", "failed to
    update record: " or "failed to delete record: ", and no record is
    returned. *)
Theorem stops_at_first_failure zone records w err :
  let z := trimmed zone in
  (snd (value (SetRecords UseClient p ctx zone records w)) = Some err ->
   exists done failed rest cause before,
     records = done ++ failed :: rest
     /\ events (SetRecords UseClient p ctx zone records w)
        = before ++ [mkEvent (setCall z failed) (Failed cause)]
     /\ map call before = map (setCall z) done
     /\ Forall succeeded before
     /\ value (SetRecords UseClient p ctx zone records w)
        = ([], Some ((if (String.length (ID failed) =? 0)%nat
                      then "failed to add record: "
                      else "failed to update record: ") ++ cause)%string))
  /\ (snd (value (DeleteRecords UseClient p ctx zone records w)) = Some err ->
      exists done failed rest cause before,
        records = done ++ failed :: rest
        /\ events (DeleteRecords UseClient p ctx zone records w)
           = before ++ [mkEvent (CallDeleteRecord z (ID failed)) (Failed cause)]
        /\ map call before
           = map (fun record => CallDeleteRecord z (ID record)) done
        /\ Forall succeeded before
        /\ value (DeleteRecords UseClient p ctx zone records w)
           = ([], Some ("failed to delete record: " ++ cause)%string)).
Proof.
  intros z. split; intros H.
  - apply (rangeRecords_first_failure
             (SetRecords_body UseClient p ctx z) (setCall z)
             (fun record => if (String.length (ID record) =? 0)%nat
                            then "failed to add record: "
                            else "failed to update record: ")
             (fun record =>
                if (String.length (ID record) =? 0)%nat
                then client_AddRecord _ _ (client UseClient p) ctx z
                       (Type_ record) (Name record) (Value record) (TTL record)
                else client_UpdateRecord _ _ (client UseClient p) ctx z
                       (ID record) (Name record) (Value record) (TTL record)))
      with (err := err); [|exact H].
    intros record w'. unfold setCall.
    destruct (String.length (ID record) =? 0)%nat eqn:L.
    + apply length_zero_empty in L. now apply SetRecords_body_create.
    + apply SetRecords_body_update. intros E.
      apply length_zero_empty in E. congruence.
  - apply (rangeRecords_first_failure
             (DeleteRecords_body UseClient p ctx z)
             (fun record => CallDeleteRecord z (ID record))
             (fun _ => "failed to delete record: ")
             (fun record => client_DeleteRecord _ _ (client UseClient p) ctx z
                              (ID record)))
      with (err := err); [|exact H].
    intros record w'. apply DeleteRecords_body_run.
Qed.

Lemma DeleteRecords_event zone records w e :
  In e (events (DeleteRecords UseClient p ctx zone records w)) ->
  exists record,
    In record records /\ call e = CallDeleteRecord (trimmed zone) (ID record).
Proof.
  intros Hin. apply (in_map call) in Hin.
  rewrite (proj1 (DeleteRecords_calls UseClient p ctx zone records w)) in Hin.
  apply in_map_iff in Hin as (record & <- & Hin).
  exists record. split; [|reflexivity].
  rewrite <- (firstn_skipn (List.length (events (DeleteRecords UseClient p ctx
                                                   zone records w))) records).
  apply in_or_app. now left.
Qed.

(** The events of one iteration of [AppendRecords]: the create call, for
    a name that is no challenge name; otherwise the listing, the calls
    of the deletion of the stale records and at most one last call, the
    update of the current record or, when there is none, the create
    call. *)
Lemma AppendRecords_body_shape zone record w :
  let listing := client_GetRecords _ _ (client UseClient p) ctx (trimmed zone) w in
  let listed := mkEvent (CallGetRecords (trimmed zone))
                        (replyOf Listed (fst listing)) in
  let create := CallAddRecord zone (Type_ record) (Name record) (Value record)
                              (TTL record) in
  if challenge record
  then match fst listing with
       | inr _ => events (AppendRecords_body UseClient p ctx zone record w)
                  = [listed]
       | inl existingRecords =>
           exists final,
             events (AppendRecords_body UseClient p ctx zone record w)
             = listed
                 :: events (DeleteRecords UseClient p ctx zone
                              (tl (matching record existingRecords))
                              (snd listing))
                 ++ final
             /\ (List.length final <= 1)%nat
             /\ Forall (fun e =>
                          call e
                          = match matching record existingRecords with
                            | current :: _ =>
                                CallUpdateRecord zone (ID current) (Name record)
                                                 (Value record) (TTL record)
                            | [] => create
                            end) final
       end
  else exists answer : (Record + error) * World,
      events (AppendRecords_body UseClient p ctx zone record w)
      = [answered create answer].
Proof.
  intros listing listed create. unfold challenge.
  destruct (strings.HasPrefix (Name record) "_acme-challenge.") eqn:E.
  - rewrite (AppendRecords_body_acme _ _ _ _ _ _ E). cbv zeta.
    fold listing. fold listed.
    destruct (fst listing) as [existingRecords|err]; [|reflexivity].
    destruct (snd (value (DeleteRecords UseClient p ctx zone
                            (tl (matching record existingRecords))
                            (snd listing)))).
    + exists []. rewrite app_nil_r. repeat split; auto.
    + destruct (matching record existingRecords) as [|current found];
        (eexists [_]; split; [reflexivity|split; [auto|]]);
        repeat constructor.
  - rewrite (AppendRecords_body_plain _ _ _ _ _ _ E). eexists. reflexivity.
Qed.

Lemma sameTypeName_eq record existing :
  sameTypeName record existing = true ->
  Type_ existing = Type_ record /\ Name existing = Name record.
Proof.
  unfold sameTypeName. intros H. apply andb_true_iff in H as [Ht Hn].
  now apply String.eqb_eq in Ht, Hn.
Qed.

Lemma matching_In record existingRecords existing :
  In existing (matching record existingRecords) ->
  In existing existingRecords
  /\ Type_ existing = Type_ record /\ Name existing = Name record.
Proof.
  unfold matching. intros H. apply filter_In in H as [Hin Hm].
  split; [exact Hin|]. now apply sameTypeName_eq.
Qed.

Lemma tl_In {A} (x : A) (l : list A) : In x (tl l) -> In x l.
Proof. destruct l; [auto|]. now right. Qed.

(** X7.  [AppendRecords] changes and removes nothing but what it was
    shown: every update and every delete call of a run is keyed by the
    identifier of a record that a listing of the same run returned, and
    that record has the type and the name of a candidate of the batch
    whose name is a challenge name. *)
Theorem AppendRecords_touches_listed_matches zone records w e id :
  In e (events (AppendRecords UseClient p ctx zone records w)) ->
  target (call e) = Some id ->
  exists record existingRecords existing,
    In record records /\ challenge record = true
    /\ In (mkEvent (CallGetRecords (trimmed (trimmed zone)))
                   (Listed existingRecords))
          (events (AppendRecords UseClient p ctx zone records w))
    /\ In existing existingRecords
    /\ Type_ existing = Type_ record /\ Name existing = Name record
    /\ ID existing = id.
Proof.
  intros Hin Ht. unfold AppendRecords in *. cbv zeta in *.
  fold (trimmed zone) in *. set (z := trimmed zone) in *.
  apply rangeRecords_event in Hin as (record & w' & Hr & He & Hincl).
  pose proof (AppendRecords_body_shape z record w') as Hshape.
  cbv zeta in Hshape. exists record.
  destruct (challenge record).
  2:{ destruct Hshape as (answer & Hev). rewrite Hev in He.
      destruct He as [<-|[]]. discriminate Ht. }
  destruct (fst (client_GetRecords _ _ (client UseClient p) ctx (trimmed z) w'))
    as [existingRecords|err].
  2:{ rewrite Hshape in He. destruct He as [<-|[]]. discriminate Ht. }
  destruct Hshape as (final & Hev & _ & Hfinal).
  exists existingRecords.
  assert (Hlisted : In (mkEvent (CallGetRecords (trimmed z))
                                (Listed existingRecords))
                       (events (rangeRecords
                                  (AppendRecords_body UseClient p ctx z)
                                  records [] w))).
  { apply Hincl. rewrite Hev. now left. }
  rewrite Hev in He. destruct He as [<-|He]; [discriminate Ht|].
  apply in_app_or in He as [He|He].
  - apply DeleteRecords_event in He as (existing & Hex & Hc).
    rewrite Hc in Ht. injection Ht as <-.
    apply tl_In, matching_In in Hex as (Hex & Hty & Hn).
    exists existing. repeat split; auto.
  - rewrite Forall_forall in Hfinal. apply Hfinal in He.
    destruct (matching record existingRecords) as [|current found] eqn:Hm;
      rewrite He in Ht; [discriminate Ht|]. injection Ht as <-.
    assert (Hc : In current (matching record existingRecords))
      by (rewrite Hm; now left).
    apply matching_In in Hc as (Hex & Hty & Hn).
    exists current. repeat split; auto.
Qed.

(** X8.  The zone the remote calls name.  [GetRecords], [SetRecords] and
    [DeleteRecords] name the zone with one trailing dot removed.  So do
    the create and update calls of [AppendRecords]; its listing and
    delete calls go through [GetRecords] and [DeleteRecords] and name
    the zone with one more trailing dot removed. *)
Theorem zone_of_calls zone records w e :
  (In e (events (GetRecords UseClient p ctx zone w)) ->
   zoneOf (call e) = trimmed zone)
  /\ (In e (events (SetRecords UseClient p ctx zone records w)) ->
      zoneOf (call e) = trimmed zone)
  /\ (In e (events (DeleteRecords UseClient p ctx zone records w)) ->
      zoneOf (call e) = trimmed zone)
  /\ (In e (events (AppendRecords UseClient p ctx zone records w)) ->
      zoneOf (call e)
      = if isGet (call e) || isDelete (call e)
        then trimmed (trimmed zone) else trimmed zone).
Proof.
  split; [|split; [|split]]; intros Hin.
  - rewrite GetRecords_run in Hin. destruct Hin as [<-|[]]. reflexivity.
  - apply (in_map call) in Hin.
    rewrite (proj1 (SetRecords_one_call_each_aux zone records w)) in Hin.
    apply in_map_iff in Hin as (record & <- & _). unfold setCall.
    destruct (String.length (ID record) =? 0)%nat; reflexivity.
  - apply DeleteRecords_event in Hin as (record & _ & ->). reflexivity.
  - unfold AppendRecords in Hin. cbv zeta in Hin. fold (trimmed zone) in Hin.
    set (z := trimmed zone) in *.
    apply rangeRecords_event in Hin as (record & w' & _ & He & _).
    pose proof (AppendRecords_body_shape z record w') as Hshape.
    cbv zeta in Hshape.
    destruct (challenge record).
    2:{ destruct Hshape as (answer & Hev). rewrite Hev in He.
        destruct He as [<-|[]]. reflexivity. }
    destruct (fst (client_GetRecords _ _ (client UseClient p) ctx (trimmed z) w'))
      as [existingRecords|err].
    2:{ rewrite Hshape in He. destruct He as [<-|[]]. reflexivity. }
    destruct Hshape as (final & Hev & _ & Hfinal).
    rewrite Hev in He. destruct He as [<-|He]; [reflexivity|].
    apply in_app_or in He as [He|He].
    + apply DeleteRecords_event in He as (existing & _ & ->). reflexivity.
    + rewrite Forall_forall in Hfinal. apply Hfinal in He. rewrite He.
      destruct (matching record existingRecords); reflexivity.
Qed.

Lemma listings_app evs evs' :
  listings (evs ++ evs') = listings evs ++ listings evs'.
Proof. apply filter_app. Qed.

Lemma listings_none evs :
  Forall (fun e => isGet (call e) = false) evs -> listings evs = [].
Proof.
  induction 1 as [|e evs He _ IH]; [reflexivity|].
  unfold listings in *. cbn. now rewrite He.
Qed.

Lemma AppendRecords_body_listings zone record w :
  let listing := client_GetRecords _ _ (client UseClient p) ctx (trimmed zone) w in
  listings (events (AppendRecords_body UseClient p ctx zone record w))
  = if challenge record
    then [mkEvent (CallGetRecords (trimmed zone)) (replyOf Listed (fst listing))]
    else [].
Proof.
  intros listing.
  pose proof (AppendRecords_body_shape zone record w) as Hshape.
  cbv zeta in Hshape. fold listing in Hshape.
  destruct (challenge record).
  2:{ destruct Hshape as (answer & ->). reflexivity. }
  destruct (fst listing) as [existingRecords|err] eqn:E;
    [|now rewrite Hshape].
  destruct Hshape as (final & -> & _ & Hfinal).
  assert (Hf : listings final = []).
  { apply listings_none. eapply Forall_impl; [|exact Hfinal]. intros e ->.
    destruct (matching record existingRecords); reflexivity. }
  assert (Hd : listings (events (DeleteRecords UseClient p ctx zone
                                   (tl (matching record existingRecords))
                                   (snd listing))) = []).
  { apply listings_none, Forall_forall. intros e He.
    apply DeleteRecords_event in He as (existing & _ & ->). reflexivity. }
  change (listings (?e :: ?l)) with (e :: listings l).
  now rewrite listings_app, Hf, Hd.
Qed.

Lemma AppendRecords_listings zone records : forall acc w,
  let r := rangeRecords (AppendRecords_body UseClient p ctx zone) records acc w in
  (List.length (listings (events r)) <= List.length (filter challenge records))%nat
  /\ (snd (value r) = None ->
      List.length (listings (events r)) = List.length (filter challenge records))
  /\ Forall (fun e => call e = CallGetRecords (trimmed zone))
            (listings (events r)).
Proof.
  induction records as [|record records IH]; intros acc w r; subst r.
  - repeat split; auto.
  - rewrite rangeRecords_cons.
    pose proof (AppendRecords_body_listings zone record w) as Hl.
    cbv zeta in Hl. cbn [filter].
    destruct (value (AppendRecords_body UseClient p ctx zone record w))
      as [x|err].
    + cbn [events value after]. rewrite listings_app, Hl, length_app.
      destruct (IH (acc ++ [x])
                   (world (AppendRecords_body UseClient p ctx zone record w)))
        as (Hle & Heq & Hall).
      destruct (challenge record); cbn [List.length app].
      * repeat split; [lia|intros H; rewrite (Heq H); reflexivity|].
        constructor; [reflexivity|exact Hall].
      * repeat split; auto.
    + cbn [events value snd]. rewrite Hl.
      destruct (challenge record); cbn [List.length].
      * repeat split; [lia|discriminate|]. repeat constructor.
      * repeat split; [lia|discriminate|constructor].
Qed.

(** X9.  [AppendRecords] lists the zone anew for each candidate with a
    challenge name and for no other candidate: a run makes at most as
    many listing calls as the batch has challenge names, exactly as many
    when it returns no error, and each of them lists the same zone. *)
Theorem AppendRecords_one_listing_per_challenge zone records w :
  let r := AppendRecords UseClient p ctx zone records w in
  (List.length (listings (events r)) <= List.length (filter challenge records))%nat
  /\ (snd (value r) = None ->
      List.length (listings (events r)) = List.length (filter challenge records))
  /\ Forall (fun e => call e = CallGetRecords (trimmed (trimmed zone)))
            (listings (events r)).
Proof.
  exact (AppendRecords_listings (trimmed zone) records [] w).
Qed.

(** X10.  [AppendRecords] on a batch [pre ++ record :: post] whose
    candidates before [record] went through, when [record] has a
    challenge name, the listing succeeds and the deletion of the stale
    records fails: the run ends with the calls of that deletion.  The
    current record is not updated, nothing is created, [post] is not
    processed, and the error is the cause behind "failed to delete stale
    ACME challenge records: failed to delete record: ". *)
Theorem AppendRecords_stale_deletion_fails
        zone pre record post w created w1 evs existingRecords w2 err :
  challenge record = true ->
  AppendRecords UseClient p ctx zone pre w = mkRun (created, None) w1 evs ->
  let z := trimmed zone in
  client_GetRecords _ _ (client UseClient p) ctx (trimmed z) w1
  = (inl existingRecords, w2) ->
  let deleted :=
    DeleteRecords UseClient p ctx z (tl (matching record existingRecords)) w2 in
  snd (value deleted) = Some err ->
  AppendRecords UseClient p ctx zone (pre ++ record :: post) w
  = mkRun ([], Some ("failed to delete stale ACME challenge records: " ++ err)%string)
          (world deleted)
          (evs ++ mkEvent (CallGetRecords (trimmed z)) (Listed existingRecords)
               :: events deleted)
  /\ exists cause before id,
      err = ("failed to delete record: " ++ cause)%string
      /\ events deleted
         = before ++ [mkEvent (CallDeleteRecord (trimmed z) id) (Failed cause)].
Proof.
  intros H Hpre z Hlist deleted Hdel. split.
  - unfold AppendRecords in *. cbv zeta in *. fold (trimmed zone) in *.
    fold z in Hpre |- *.
    apply (rangeRecords_stops _ pre record post w created w1 evs _ _ _ Hpre).
    rewrite (AppendRecords_body_acme _ _ _ _ _ _ H). cbv zeta.
    rewrite Hlist. cbn [fst snd]. fold deleted. now rewrite Hdel.
  - destruct (rangeRecords_first_failure
                (DeleteRecords_body UseClient p ctx (trimmed z))
                (fun record => CallDeleteRecord (trimmed z) (ID record))
                (fun _ => "failed to delete record: ")
                (fun record =>
                   client_DeleteRecord _ _ (client UseClient p) ctx (trimmed z)
                                       (ID record))
                (fun record w' =>
                   DeleteRecords_body_run UseClient p ctx (trimmed z) record w')
                (tl (matching record existingRecords)) [] w2 err Hdel)
      as (done & failed & rest & cause & before & _ & Hev & _ & _ & Hv).
    exists cause, before, (ID failed). split; [|exact Hev].
    subst deleted. unfold DeleteRecords in Hdel. cbv zeta in Hdel.
    fold (trimmed z) in Hdel. rewrite Hv in Hdel. now injection Hdel as <-.
Qed.

Lemma substring_split (s : string) : forall n,
  (n <= String.length s)%nat ->
  s = (substring 0 n s ++ substring n (String.length s - n) s)%string.
Proof.
  induction s as [|a s IH]; intros [|n] H; simpl in *; try lia.
  - reflexivity.
  - f_equal. clear. induction s as [|b s IH]; simpl; [reflexivity|].
    now rewrite <- IH.
  - f_equal. apply IH. lia.
Qed.

Lemma HasSuffix_split (s t : string) :
  strings.HasSuffix s t = true ->
  s = (substring 0 (String.length s - String.length t) s ++ t)%string.
Proof.
  unfold strings.HasSuffix. intros H. apply andb_true_iff in H as [Hl Ht].
  apply Nat.leb_le in Hl. apply String.eqb_eq in Ht.
  rewrite (substring_split s (String.length s - String.length t)) at 1 by lia.
  replace (String.length s - (String.length s - String.length t))
    with (String.length t) by lia.
  now rewrite Ht.
Qed.

(** X11.  What the methods make of the zone name: a name that ends in a
    dot loses that one dot and nothing else; any other name is taken as
    it is. *)
Theorem trimmed_strips_one_dot zone :
  (exists z, zone = (z ++ ".")%string /\ trimmed zone = z)
  \/ ((forall z, zone <> (z ++ ".")%string) /\ trimmed zone = zone).
Proof.
  destruct (strings.HasSuffix zone ".") eqn:E.
  - left. exists (trimmed zone). split; [|reflexivity].
    unfold trimmed, strings.TrimSuffix. rewrite E.
    now apply HasSuffix_split.
  - right. split; [|now apply trimmed_dotless].
    intros z ->. now rewrite HasSuffix_append in E.
Qed.

(** X12.  The scan of the listing in [AppendRecords]: the first listed
    record of the candidate's type and name is kept as the current one,
    the later ones are marked for deletion, in listing order; records of
    another type or name are neither kept nor marked. *)
Theorem scanExisting_first_and_rest record existingRecords :
  let scanned := scanExisting record existingRecords [] None in
  match snd scanned with
  | Some current => matching record existingRecords = current :: fst scanned
  | None => matching record existingRecords = [] /\ fst scanned = []
  end.
Proof.
  cbv zeta. rewrite scanExisting_matching.
  destruct (matching record existingRecords); cbn; auto.
Qed.

Lemma NoDup_map_filter {A B} (f : A -> B) (g : A -> bool) (l : list A) :
  NoDup (map f l) -> NoDup (map f (filter g l)).
Proof.
  induction l as [|x l IH]; intros H; [constructor|].
  inversion H as [|? ? Hx Hl]; subst. cbn. destruct (g x); [|auto].
  cbn. constructor; [|auto]. intros Hin. apply Hx.
  apply in_map_iff in Hin as (y & <- & Hy). apply filter_In in Hy as [Hy _].
  now apply in_map.
Qed.

(** X13.  Within the iteration of [AppendRecords] on one candidate, the
    record that is updated is never one that was deleted, provided the
    listing gives every record an identifier of its own. *)
Theorem AppendRecords_updates_a_kept_record
        zone record w existingRecords w2 e e' :
  client_GetRecords _ _ (client UseClient p) ctx (trimmed zone) w
  = (inl existingRecords, w2) ->
  NoDup (map ID existingRecords) ->
  In e (events (AppendRecords_body UseClient p ctx zone record w)) ->
  In e' (events (AppendRecords_body UseClient p ctx zone record w)) ->
  isDelete (call e) = true -> isUpdate (call e') = true ->
  target (call e) <> target (call e').
Proof.
  intros Hlist Hnodup He He' Hd Hu.
  pose proof (AppendRecords_body_shape zone record w) as Hshape.
  cbv zeta in Hshape. rewrite Hlist in Hshape. cbn [fst snd] in Hshape.
  destruct (challenge record).
  2:{ destruct Hshape as (answer & Hev). rewrite Hev in He.
      destruct He as [<-|[]]. discriminate Hd. }
  destruct Hshape as (final & Hev & _ & Hfinal).
  rewrite Forall_forall in Hfinal. rewrite Hev in He, He'.
  assert (Hdel : exists existing,
             In existing (tl (matching record existingRecords))
             /\ call e = CallDeleteRecord (trimmed zone) (ID existing)).
  { destruct He as [<-|He]; [discriminate Hd|].
    apply in_app_or in He as [He|He].
    - now apply DeleteRecords_event in He.
    - apply Hfinal in He. rewrite He in Hd.
      destruct (matching record existingRecords); discriminate Hd. }
  destruct Hdel as (existing & Hex & Hce).
  destruct He' as [<-|He']; [discriminate Hu|].
  apply in_app_or in He' as [He'|He'].
  { apply DeleteRecords_event in He' as (x & _ & Hx). rewrite Hx in Hu.
    discriminate Hu. }
  apply Hfinal in He'.
  pose proof (NoDup_map_filter ID (sameTypeName record) existingRecords Hnodup)
    as Hnd.
  fold (matching record existingRecords) in Hnd.
  destruct (matching record existingRecords) as [|current found];
    [rewrite He' in Hu; discriminate Hu|].
  rewrite Hce, He'. cbn. intros Heq. injection Heq as Heq.
  inversion Hnd as [|? ? Hnotin _]; subst. apply Hnotin.
  rewrite <- Heq. now apply in_map.
Qed.

(** X14.  What the methods never call: [GetRecords] only lists,
    [SetRecords] only creates and updates, [DeleteRecords] only deletes,
    and [AppendRecords] on a batch without challenge names only
    creates. *)
Theorem kinds_of_calls zone records w e :
  (In e (events (GetRecords UseClient p ctx zone w)) -> isGet (call e) = true)
  /\ (In e (events (SetRecords UseClient p ctx zone records w)) ->
      isAdd (call e) || isUpdate (call e) = true)
  /\ (In e (events (DeleteRecords UseClient p ctx zone records w)) ->
      isDelete (call e) = true)
  /\ (Forall (fun record => challenge record = false) records ->
      In e (events (AppendRecords UseClient p ctx zone records w)) ->
      isAdd (call e) = true).
Proof.
  split; [|split; [|split]].
  - intros Hin. rewrite GetRecords_run in Hin. destruct Hin as [<-|[]].
    reflexivity.
  - intros Hin. apply (in_map call) in Hin.
    rewrite (proj1 (SetRecords_one_call_each_aux zone records w)) in Hin.
    apply in_map_iff in Hin as (record & <- & _). unfold setCall.
    destruct (String.length (ID record) =? 0)%nat; reflexivity.
  - intros Hin. apply DeleteRecords_event in Hin as (record & _ & ->).
    reflexivity.
  - intros Hplain Hin. unfold AppendRecords in Hin. cbv zeta in Hin.
    apply rangeRecords_event in Hin as (record & w' & Hr & He & _).
    rewrite Forall_forall in Hplain.
    rewrite (AppendRecords_body_plain _ _ _ _ _ _ (Hplain record Hr)) in He.
    destruct He as [<-|[]]. reflexivity.
Qed.

(** X15.  A batch method makes no remote call exactly when the batch is
    empty; it then returns no record and no error. *)
Theorem no_call_iff_empty_batch zone records w :
  (events (AppendRecords UseClient p ctx zone records w) = [] <-> records = [])
  /\ (events (SetRecords UseClient p ctx zone records w) = [] <-> records = [])
  /\ (events (DeleteRecords UseClient p ctx zone records w) = []
      <-> records = [])
  /\ (records = [] ->
      AppendRecords UseClient p ctx zone records w = mkRun ([], None) w []
      /\ SetRecords UseClient p ctx zone records w = mkRun ([], None) w []
      /\ DeleteRecords UseClient p ctx zone records w = mkRun ([], None) w []).
Proof.
  assert (Hcons : forall body : Record -> M World (Record + error),
             (forall record w', events (body record w') <> []) ->
             events (rangeRecords body records [] w) = [] -> records = []).
  { intros body Hbody H. destruct records as [|record rest]; [reflexivity|].
    destruct (rangeRecords_events_cons body record rest [] w) as (more & Hev).
    rewrite Hev in H. apply app_eq_nil in H as [H _].
    now apply Hbody in H. }
  split; [|split; [|split]].
  - split; [|now intros ->]. apply Hcons. intros record w' H.
    pose proof (AppendRecords_body_shape (trimmed zone) record w') as Hshape.
    cbv zeta in Hshape. fold (trimmed zone) in H.
    destruct (challenge record).
    + destruct (fst (client_GetRecords _ _ _ ctx _ w')).
      * destruct Hshape as (final & Hev & _). congruence.
      * congruence.
    + destruct Hshape as (answer & Hev). congruence.
  - split; [|now intros ->]. apply Hcons. intros record w' H.
    fold (trimmed zone) in H.
    destruct (SetRecords_body_setCall (trimmed zone) record w')
      as (label & answer & Hev).
    rewrite Hev in H. discriminate H.
  - split; [|now intros ->]. apply Hcons. intros record w' H.
    fold (trimmed zone) in H. rewrite DeleteRecords_body_run in H.
    discriminate H.
  - intros ->. repeat split.
Qed.

End Further.

(** ** The properties on the in-memory remote *)

Import Memory.


(** C2 on a zone with one challenge record: one listing, one update of
    record 1, which keeps its identifier. *)
Lemma AppendRecords_single_match_example :
  append "example.com." [acme "" "new"] oneChallenge
  = mkRun ([acme "1" "new"], None)
          (mkZone "example.com" [acme "1" "new"] 2 [])
          [listing [acme "1" "old"];
           returned (update "1" "new") (acme "1" "new")]
  /\ nth_error [acme "1" "new"] 0 = Some (acme "1" "new").
Proof.
  destruct (AppendRecords_single_match
              UseClient provider tt "example.com." [] (acme "" "new") []
              oneChallenge [] oneChallenge [] [acme "1" "old"] oneChallenge
              (acme "1" "old") eq_refl eq_refl eq_refl eq_refl)
    as (Hfull & Hposition).
  split.
  - etransitivity; [exact Hfull|reflexivity].
  - apply (Hposition (acme "1" "new") [acme "1" "new"]); reflexivity.
Defined.

(** C3 on the same zone: an address record is created by one create
    call; a challenge record of a name not in the zone is created after
    the listing. *)
Lemma AppendRecords_creates_example :
  append "example.com." [www ""] oneChallenge
  = mkRun ([www "2"], None)
          (mkZone "example.com" [acme "1" "old"; www "2"] 3 [])
          [returned (CallAddRecord "example.com" "A" "www.example.com"
                                   "192.0.2.1" 60) (www "2")]
  /\ append "example.com."
            [mkRecord "" "TXT" "_acme-challenge.www.example.com" "token" 300]
            oneChallenge
     = mkRun ([mkRecord "2" "TXT" "_acme-challenge.www.example.com" "token" 300],
              None)
             (mkZone "example.com"
                     [acme "1" "old";
                      mkRecord "2" "TXT" "_acme-challenge.www.example.com"
                               "token" 300] 3 [])
             [listing [acme "1" "old"];
              returned (CallAddRecord "example.com" "TXT"
                          "_acme-challenge.www.example.com" "token" 300)
                       (mkRecord "2" "TXT" "_acme-challenge.www.example.com"
                                 "token" 300)].
Proof.
  split.
  - destruct (proj1 (AppendRecords_creates
                       UseClient provider tt "example.com." [] (www "") []
                       oneChallenge [] oneChallenge [] eq_refl) eq_refl)
      as (Hfull & _).
    etransitivity; [exact Hfull|reflexivity].
  - destruct (proj2 (AppendRecords_creates
                       UseClient provider tt "example.com." []
                       (mkRecord "" "TXT" "_acme-challenge.www.example.com"
                                 "token" 300) []
                       oneChallenge [] oneChallenge [] eq_refl) eq_refl
                    [acme "1" "old"] oneChallenge eq_refl eq_refl)
      as (Hfull & _).
    etransitivity; [exact Hfull|reflexivity].
Defined.


(** C5, as stated, fails on a zone name that ends in a dot: with one more
    dot, [GetRecords] lists the zone "example.com.", which the remote
    does not know, and not the zone "example.com". *)
Lemma trailing_dot_counterexample :
  GetRecords UseClient provider tt ("example.com." ++ ".") twoChallenges
  = mkRun ([], Some "zone not found") twoChallenges
          [mkEvent (CallGetRecords "example.com.") (Failed "zone not found")]
  /\ GetRecords UseClient provider tt "example.com." twoChallenges
     = mkRun ([acme "1" "old"; acme "2" "old2"], None) twoChallenges
             [listing [acme "1" "old"; acme "2" "old2"]]
  /\ map call (events (GetRecords UseClient provider tt
                                  ("example.com." ++ ".") twoChallenges))
     <> map call (events (GetRecords UseClient provider tt "example.com."
                                     twoChallenges)).
Proof.
  split; [reflexivity|]. split; [reflexivity|].
  intros H. discriminate H.
Qed.

(** C5, as amended, on the zone name "example.com". *)
Lemma trailing_dot_ignored_example :
  GetRecords UseClient provider tt ("example.com" ++ ".") twoChallenges
  = GetRecords UseClient provider tt "example.com" twoChallenges
  /\ append ("example.com" ++ ".") [acme "" "new"] twoChallenges
     = append "example.com" [acme "" "new"] twoChallenges
  /\ SetRecords UseClient provider tt ("example.com" ++ ".") [acme "" "new"]
                twoChallenges
     = SetRecords UseClient provider tt "example.com" [acme "" "new"]
                  twoChallenges
  /\ DeleteRecords UseClient provider tt ("example.com" ++ ".") [acme "" "new"]
                   twoChallenges
     = DeleteRecords UseClient provider tt "example.com" [acme "" "new"]
                     twoChallenges.
Proof.
  apply (trailing_dot_ignored UseClient provider tt "example.com"
                              [acme "" "new"] twoChallenges).
  reflexivity.
Defined.

(** C6 on the zone with two challenge records: a record without
    identifier is created, a record with identifier 1 is updated. *)
Lemma SetRecords_create_or_update_example :
  SetRecords UseClient provider tt "example.com." [acme "" "fresh"] twoChallenges
  = mkRun ([acme "3" "fresh"], None)
          (mkZone "example.com"
                  [acme "1" "old"; acme "2" "old2"; acme "3" "fresh"] 4 [])
          [returned (CallAddRecord "example.com" "TXT"
                       "_acme-challenge.example.com" "fresh" 300)
                    (acme "3" "fresh")]
  /\ SetRecords UseClient provider tt "example.com."
                [acme "" "fresh"; acme "1" "new"] twoChallenges
     = mkRun ([acme "3" "fresh"; acme "1" "new"], None)
             (mkZone "example.com"
                     [acme "1" "new"; acme "2" "old2"; acme "3" "fresh"] 4 [])
             [returned (CallAddRecord "example.com" "TXT"
                          "_acme-challenge.example.com" "fresh" 300)
                       (acme "3" "fresh");
              returned (update "1" "new") (acme "1" "new")].
Proof.
  split.
  - destruct (proj1 (SetRecords_create_or_update
                       UseClient provider tt "example.com." []
                       (acme "" "fresh") [] twoChallenges [] twoChallenges []
                       eq_refl) eq_refl) as (Hfull & _).
    etransitivity; [exact Hfull|reflexivity].
  - destruct (proj2 (SetRecords_create_or_update
                       UseClient provider tt "example.com." [acme "" "fresh"]
                       (acme "1" "new") [] twoChallenges [acme "3" "fresh"]
                       (mkZone "example.com"
                          [acme "1" "old"; acme "2" "old2"; acme "3" "fresh"]
                          4 [])
                       [returned (CallAddRecord "example.com" "TXT"
                                    "_acme-challenge.example.com" "fresh" 300)
                                 (acme "3" "fresh")]
                       eq_refl) ltac:(discriminate)) as (Hfull & _).
    etransitivity; [exact Hfull|reflexivity].
Defined.

(** C7 on the zone with two challenge records, deleted by their
    identifiers alone: one delete call each, the remote's records
    returned, the zone left empty. *)
Lemma DeleteRecords_one_delete_each_example :
  DeleteRecords UseClient provider tt "example.com."
                [onlyID (acme "1" "old"); onlyID (acme "2" "old2")]
                twoChallenges
  = mkRun ([acme "1" "old"; acme "2" "old2"], None)
          (mkZone "example.com" [] 3 [])
          [returned (delete "1") (acme "1" "old");
           returned (delete "2") (acme "2" "old2")]
  /\ nth_error [acme "1" "old"; acme "2" "old2"] 1 = Some (acme "2" "old2")
  /\ map call (events (DeleteRecords UseClient provider tt "example.com."
                         [onlyID (acme "1" "old"); onlyID (acme "2" "old2")]
                         twoChallenges))
     = [delete "1"; delete "2"]
  /\ map reply (events (DeleteRecords UseClient provider tt "example.com."
                          [onlyID (acme "1" "old"); onlyID (acme "2" "old2")]
                          twoChallenges))
     = map Returned [acme "1" "old"; acme "2" "old2"].
Proof.
  destruct (DeleteRecords_one_delete_each
              UseClient provider tt "example.com."
              [onlyID (acme "1" "old"); onlyID (acme "2" "old2")]
              twoChallenges) as (_ & Hall & Heach).
  destruct (Heach [onlyID (acme "1" "old")] (onlyID (acme "2" "old2")) []
                  [acme "1" "old"]
                  (mkZone "example.com" [acme "2" "old2"] 3 [])
                  [returned (delete "1") (acme "1" "old")]
                  eq_refl eq_refl) as (Hfull & Hposition).
  split; [|split].
  - etransitivity; [exact Hfull|reflexivity].
  - apply (Hposition (acme "2" "old2") [acme "1" "old"; acme "2" "old2"]);
      reflexivity.
  - apply (Hall [acme "1" "old"; acme "2" "old2"]). reflexivity.
Defined.


(** C9, as stated, fails when the listing fails: [GetRecords] returns
    the error of the listing as it is, "boom", behind no description. *)
Lemma GetRecords_error_not_wrapped :
  fst (getRecords tt "example.com" noListing) = inr "boom"
  /\ value (GetRecords UseClient provider tt "example.com." noListing)
     = ([], Some "boom")
  /\ ~ (exists msg,
           value (GetRecords UseClient provider tt "example.com." noListing)
           = ([], Some msg)
           /\ wraps "boom" msg).
Proof.
  split; [reflexivity|]. split; [reflexivity|].
  intros (msg & Hv & Hw). injection Hv as <-.
  apply wraps_longer in Hw. simpl in Hw. lia.
Qed.

(** C9, as amended, on the zone with two challenge records, listed and
    not listed. *)
Lemma GetRecords_verbatim_example :
  value (GetRecords UseClient provider tt "example.com." twoChallenges)
  = ([acme "1" "old"; acme "2" "old2"], None)
  /\ value (GetRecords UseClient provider tt "example.com." noListing)
     = ([], Some "boom").
Proof.
  split.
  - apply (proj1 (proj2 (proj2 (GetRecords_verbatim
                                  UseClient provider tt "example.com."
                                  twoChallenges)))).
    reflexivity.
  - apply (proj2 (proj2 (proj2 (GetRecords_verbatim
                                  UseClient provider tt "example.com."
                                  noListing)))).
    reflexivity.
Defined.

(** C10 on a zone where the challenge name has the A records 1 and 3 and
    the TXT record 2: a candidate of type A with that name is reconciled
    with the A records (record 3 is deleted, record 1 updated, record 2
    left alone); a TXT candidate of an ordinary name is created with no
    listing. *)
Lemma reconciliation_by_name_only_example :
  append "example.com." [challengeA "" "192.0.2.9"] mixed
  = mkRun ([challengeA "1" "192.0.2.9"], None)
          (mkZone "example.com" [challengeA "1" "192.0.2.9"; acme "2" "old"]
                  4 [])
          [listing [challengeA "1" "192.0.2.1"; acme "2" "old";
                    challengeA "3" "192.0.2.2"];
           returned (delete "3") (challengeA "3" "192.0.2.2");
           returned (CallUpdateRecord "example.com" "1"
                       "_acme-challenge.example.com" "192.0.2.9" 60)
                    (challengeA "1" "192.0.2.9")]
  /\ append "example.com." [note ""] mixed
     = mkRun ([note "4"], None)
             (mkZone "example.com"
                     [challengeA "1" "192.0.2.1"; acme "2" "old";
                      challengeA "3" "192.0.2.2"; note "4"] 5 [])
             [returned (CallAddRecord "example.com" "TXT" "www.example.com"
                                      "hello" 300) (note "4")].
Proof.
  split.
  - destruct (proj1 (reconciliation_by_name_only
                       UseClient provider tt "example.com." []
                       (challengeA "" "192.0.2.9") [] mixed [] mixed []
                       eq_refl) eq_refl) as (_ & H).
    destruct (H [challengeA "1" "192.0.2.1"; acme "2" "old";
                 challengeA "3" "192.0.2.2"] mixed
                [challengeA "3" "192.0.2.2"]
                (mkZone "example.com" [challengeA "1" "192.0.2.1"; acme "2" "old"]
                        4 [])
                [returned (delete "3") (challengeA "3" "192.0.2.2")]
                eq_refl eq_refl) as (_ & Hfull).
    etransitivity; [exact Hfull|reflexivity].
  - etransitivity;
      [exact (proj2 (reconciliation_by_name_only
                       UseClient provider tt "example.com." [] (note "") []
                       mixed [] mixed [] eq_refl) eq_refl)
      |reflexivity].
Defined.

(** *** The further properties on the in-memory remote *)



(** X5: an address record and a note are appended as they are set. *)
Lemma AppendRecords_plain_is_SetRecords_example :
  append "example.com." [www "7"; note ""] twoChallenges
  = SetRecords UseClient provider tt "example.com." [www ""; note ""]
               twoChallenges.
Proof.
  apply (AppendRecords_plain_is_SetRecords
           UseClient provider tt "example.com." [www "7"; note ""]
           twoChallenges).
  repeat constructor.
Defined.

(** X6: of the records 1, 9 and 2, the zone has no record 9; record 1 is
    deleted, record 2 is not. *)
Lemma stops_at_first_failure_example :
  exists done failed rest cause before,
    [acme "1" "old"; acme "9" "lost"; acme "2" "old2"] = done ++ failed :: rest
    /\ events (DeleteRecords UseClient provider tt "example.com."
                 [acme "1" "old"; acme "9" "lost"; acme "2" "old2"]
                 twoChallenges)
       = before ++ [mkEvent (CallDeleteRecord (trimmed "example.com.")
                                              (ID failed)) (Failed cause)]
    /\ map call before
       = map (fun record => CallDeleteRecord (trimmed "example.com.")
                                             (ID record)) done
    /\ Forall succeeded before
    /\ value (DeleteRecords UseClient provider tt "example.com."
                [acme "1" "old"; acme "9" "lost"; acme "2" "old2"]
                twoChallenges)
       = ([], Some ("failed to delete record: " ++ cause)%string).
Proof.
  apply (proj2 (stops_at_first_failure
                  UseClient provider tt "example.com."
                  [acme "1" "old"; acme "9" "lost"; acme "2" "old2"]
                  twoChallenges
                  "failed to delete record: record not found")).
  reflexivity.
Defined.

(** X7: the deletion of record 2 in the end-to-end scenario. *)
Lemma AppendRecords_touches_listed_matches_example :
  exists record existingRecords existing,
    In record [acme "" "new"] /\ challenge record = true
    /\ In (mkEvent (CallGetRecords (trimmed (trimmed "example.com.")))
                   (Listed existingRecords))
          (events (append "example.com." [acme "" "new"] twoChallenges))
    /\ In existing existingRecords
    /\ Type_ existing = Type_ record /\ Name existing = Name record
    /\ ID existing = "2".
Proof.
  apply (AppendRecords_touches_listed_matches
           UseClient provider tt "example.com." [acme "" "new"] twoChallenges
           (returned (delete "2") (acme "2" "old2")) "2").
  - right. left. reflexivity.
  - reflexivity.
Defined.

(** X8: with two trailing dots, the update names the zone with one dot
    while the listing before it named the zone without. *)
Lemma zone_of_calls_example :
  zoneOf (call (mkEvent (CallUpdateRecord "example.com." "1"
                           "_acme-challenge.example.com" "new" 300)
                        (Failed "zone not found")))
  = "example.com."
  /\ zoneOf (call (listing [acme "1" "old"; acme "2" "old2"])) = "example.com".
Proof.
  split.
  - apply (proj2 (proj2 (proj2 (zone_of_calls
                                  UseClient provider tt "example.com.."
                                  [acme "" "new"] twoChallenges
                                  (mkEvent (CallUpdateRecord "example.com." "1"
                                              "_acme-challenge.example.com"
                                              "new" 300)
                                           (Failed "zone not found")))))).
    right. right. left. reflexivity.
  - apply (proj2 (proj2 (proj2 (zone_of_calls
                                  UseClient provider tt "example.com.."
                                  [acme "" "new"] twoChallenges
                                  (listing [acme "1" "old"; acme "2" "old2"]))))).
    left. reflexivity.
Defined.

(** X9: two challenge records among three candidates, two listings. *)
Lemma AppendRecords_one_listing_per_challenge_example :
  List.length (listings (events (append "example.com."
                                        [www ""; acme "" "new"; acme "" "newer"]
                                        twoChallenges)))
  = List.length (filter challenge [www ""; acme "" "new"; acme "" "newer"]).
Proof.
  apply (proj1 (proj2 (AppendRecords_one_listing_per_challenge
                         UseClient provider tt "example.com."
                         [www ""; acme "" "new"; acme "" "newer"]
                         twoChallenges))).
  reflexivity.
Defined.

(** X10: deletions fail; the address record before the challenge record
    stays created, the one after it is not. *)
Lemma AppendRecords_stale_deletion_fails_example :
  append "example.com." [www ""; acme "" "new"; www ""] noDeleting
  = mkRun ([], Some "failed to delete stale ACME challenge records: failed to delete record: boom")
          (mkZone "example.com" [acme "1" "old"; acme "2" "old2"; www "3"] 4
                  [("DeleteRecord", "boom")])
          [returned (CallAddRecord "example.com" "A" "www.example.com"
                                   "192.0.2.1" 60) (www "3");
           listing [acme "1" "old"; acme "2" "old2"; www "3"];
           failedDelete].
Proof.
  etransitivity;
    [exact (proj1 (AppendRecords_stale_deletion_fails
                     UseClient provider tt "example.com." [www ""]
                     (acme "" "new") [www ""] noDeleting [www "3"]
                     (mkZone "example.com"
                             [acme "1" "old"; acme "2" "old2"; www "3"] 4
                             [("DeleteRecord", "boom")])
                     [returned (CallAddRecord "example.com" "A"
                                  "www.example.com" "192.0.2.1" 60) (www "3")]
                     [acme "1" "old"; acme "2" "old2"; www "3"]
                     (mkZone "example.com"
                             [acme "1" "old"; acme "2" "old2"; www "3"] 4
                             [("DeleteRecord", "boom")])
                     "failed to delete record: boom"
                     eq_refl eq_refl eq_refl eq_refl))
    |reflexivity].
Defined.

(** X13: in the end-to-end scenario record 2 is deleted and record 1
    updated. *)
Lemma AppendRecords_updates_a_kept_record_example :
  target (delete "2") <> target (update "1" "new").
Proof.
  apply (AppendRecords_updates_a_kept_record
           UseClient provider tt "example.com" (acme "" "new") twoChallenges
           [acme "1" "old"; acme "2" "old2"] twoChallenges
           (returned (delete "2") (acme "2" "old2"))
           (returned (update "1" "new") (acme "1" "new"))).
  - reflexivity.
  - repeat constructor; cbn; intuition discriminate.
  - right. left. reflexivity.
  - right. right. left. reflexivity.
  - reflexivity.
  - reflexivity.
Defined.

(** X14: appending an address record only creates. *)
Lemma kinds_of_calls_example :
  isAdd (CallAddRecord "example.com" "A" "www.example.com" "192.0.2.1" 60)
  = true.
Proof.
  apply (proj2 (proj2 (proj2 (kinds_of_calls
                                UseClient provider tt "example.com." [www ""]
                                twoChallenges
                                (returned (CallAddRecord "example.com" "A"
                                             "www.example.com" "192.0.2.1" 60)
                                          (www "3")))))).
  - repeat constructor.
  - left. reflexivity.
Defined.

(** X15: the empty batch. *)
Lemma no_call_iff_empty_batch_example :
  events (append "example.com." [] twoChallenges) = []
  /\ (append "example.com." [] twoChallenges = mkRun ([], None) twoChallenges []
      /\ SetRecords UseClient provider tt "example.com." [] twoChallenges
         = mkRun ([], None) twoChallenges []
      /\ DeleteRecords UseClient provider tt "example.com." [] twoChallenges
         = mkRun ([], None) twoChallenges []).
Proof.
  split.
  - apply (proj2 (proj1 (no_call_iff_empty_batch
                           UseClient provider tt "example.com." []
                           twoChallenges))).
    reflexivity.
  - apply (proj2 (proj2 (proj2 (no_call_iff_empty_batch
                                  UseClient provider tt "example.com." []
                                  twoChallenges)))).
    reflexivity.
Defined.
